(** * SysMonitor++ : the sampling and derivation engine of [sysmonitor.c]

    A shallow embedding of the three samplers of [sysmonitor.c] (CPU usage,
    memory usage, top processes) and the properties of them that the
    specification states.

    Conventions of the embedding.
    - [unsigned long long] and [unsigned long] are 64-bit: a value is a [Z]
      in [0, 2^64) and every addition and subtraction is reduced modulo
      [2^64] ([wrap64]).  [long] is a [Z] in [-2^63, 2^63); [int] is 32-bit.
    - A C string is a [string]: the bytes before the terminating NUL.
      Where the code moves a pointer over the terminator, in
      [readProcessStat], the bytes that lie behind it are an input of the
      model: the array is not initialised and holds what the stack held.
    - [double] arithmetic is written once, over the operations of
      [DoubleOps], and read at two instances: [Q] gives the exact value of
      an expression (what the rounded result approximates), [float] gives
      the IEEE binary64 result bit for bit.  Ranges and values are proved
      on exact values; where rounding matters the binary64 result is
      stated too, and the examples are evaluated in both.
    - The files under [/proc] are inputs: a [file] says whether [open] and
      [read] succeed and which bytes [read] delivers. *)

From Stdlib Require Import ZArith QArith Bool List Lia Ascii String.
From Stdlib Require Import Permutation Sorted Lqa Field.
From Stdlib Require Floats DecimalString DecimalN DecimalPos.
Import ListNotations.

Open Scope Z_scope.

(** ** Machine integers *)

Definition ULONG_MAX : Z := 2 ^ 64 - 1.
Definition LONG_MAX : Z := 2 ^ 63 - 1.
Definition LONG_MIN : Z := - 2 ^ 63.

(** The value of a 64-bit unsigned expression whose mathematical value is [z]. *)
Definition wrap64 (z : Z) : Z := z mod 2 ^ 64.

Definition add64 (a b : Z) : Z := wrap64 (a + b).
Definition sub64 (a b : Z) : Z := wrap64 (a - b).

Definition is_u64 (z : Z) : Prop := 0 <= z <= ULONG_MAX.

(** Conversion of a [long] to [int], as in [atoi]: the low 32 bits, signed. *)
Definition to_int32 (z : Z) : Z := (z + 2 ^ 31) mod 2 ^ 32 - 2 ^ 31.

(** ** The C library functions the samplers call *)

Open Scope string_scope.

(** A buffer as C reads it: the bytes before the first NUL. *)
Fixpoint c_str (s : string) : string :=
  match s with
  | EmptyString => EmptyString
  | String c r => if Ascii.eqb c Ascii.zero then EmptyString else String c (c_str r)
  end.

(** The first [n] bytes of a file's content: what one [read] of [n] bytes stores. *)
Fixpoint take (n : nat) (s : string) : string :=
  match n, s with
  | O, _ => EmptyString
  | S _, EmptyString => EmptyString
  | S m, String c r => String c (take m r)
  end.

(** Pointer increment [ptr += n] over [n] bytes of the string itself: the
    increments that follow a successful [strstr], [strchr] or literal match
    and step over the bytes just matched ([advance_inside] below).  The
    increment of [readProcessStat] that can leave the string is
    [advance_over]. *)
Fixpoint advance (n : nat) (s : string) : string :=
  match n, s with
  | O, _ => s
  | S _, EmptyString => EmptyString
  | S m, String _ r => advance m r
  end.

(** The bytes that lie behind the first NUL of a piece of memory. *)
Fixpoint after_nul (s : string) : string :=
  match s with
  | EmptyString => EmptyString
  | String c r => if Ascii.eqb c Ascii.zero then r else after_nul r
  end.

(** Pointer increment [ptr += n] with no regard to the terminator, as C
    performs it: [behind] is the memory that lies behind the terminator of
    [s].  A step taken at the terminator lands on the first byte of
    [behind], and what the pointer designates from then on is the C string
    found there. *)
Fixpoint advance_over (n : nat) (s behind : string) : string :=
  match n, s with
  | O, _ => s
  | S m, String _ r => advance_over m r behind
  | S m, EmptyString => c_str (advance m behind)
  end.

(** [strchr(s, c)] for [c <> 0]: the suffix at the first [c], or [None] for NULL. *)
Fixpoint strchr (s : string) (c : ascii) : option string :=
  match s with
  | EmptyString => None
  | String a r => if Ascii.eqb a c then Some s else strchr r c
  end.

(** [strrchr(s, c)]: the suffix at the last [c].  The source never calls it;
    it is the anchor the specification describes. *)
Fixpoint strrchr (s : string) (c : ascii) : option string :=
  match s with
  | EmptyString => None
  | String a r =>
      match strrchr r c with
      | Some t => Some t
      | None => if Ascii.eqb a c then Some s else None
      end
  end.

(** [strstr(s, t)]: the suffix at the first occurrence of [t]. *)
Fixpoint strstr (s t : string) : option string :=
  if prefix t s then Some s
  else match s with
       | EmptyString => None
       | String _ r => strstr r t
       end.

(** [isspace] in the C locale. *)
Definition isspace (c : ascii) : bool :=
  let n := N_of_ascii c in
  ((n =? 32) || ((9 <=? n) && (n <=? 13)))%N.

Definition isdigit (c : ascii) : bool :=
  let n := N_of_ascii c in ((48 <=? n) && (n <=? 57))%N.

Definition digit_val (c : ascii) : Z := Z.of_N (N_of_ascii c) - 48.

Fixpoint skip_space (s : string) : string :=
  match s with
  | String c r => if isspace c then skip_space r else s
  | EmptyString => s
  end.

(** The longest run of decimal digits at the head of [s]: how many there
    are, the number they denote after [acc], and the rest of the string. *)
Fixpoint scan_digits (s : string) (acc : Z) : nat * Z * string :=
  match s with
  | String c r =>
      if isdigit c then
        let '(k, v, t) := scan_digits r (10 * acc + digit_val c) in (S k, v, t)
      else (O, acc, s)
  | EmptyString => (O, acc, s)
  end.

(** An optional sign: [true] for ['-']. *)
Definition scan_sign (s : string) : bool * string :=
  match s with
  | String "-" r => (true, r)
  | String "+" r => (false, r)
  | _ => (false, s)
  end.

(** One [%lu] (or [%llu]) conversion of [sscanf]: white space, an optional
    sign, at least one digit.  The value is what glibc's [strtoul] stores:
    [ULONG_MAX] when the digits overflow, the two's complement for ['-']. *)
Definition scan_ulong (s : string) : option (Z * string) :=
  let (neg, r) := scan_sign (skip_space s) in
  match scan_digits r 0 with
  | (O, _, _) => None
  | (_, v, t) =>
      if v >? ULONG_MAX then Some (ULONG_MAX, t)
      else Some (if neg then wrap64 (- v) else v, t)
  end.

(** [sscanf(s, "%lu %lu", &a, &b)]: the number of conversions made and the
    values stored.  The blank of the format skips white space, as the second
    [%lu] does anyway. *)
Definition sscanf_lu_lu (s : string) : nat * Z * Z :=
  match scan_ulong s with
  | None => (0%nat, 0, 0)
  | Some (a, r) =>
      match scan_ulong (skip_space r) with
      | None => (1%nat, a, 0)
      | Some (b, _) => (2%nat, a, b)
      end
  end.

(** [strtol(s, NULL, 10)]: 0 when no digits follow, clamped to the range of [long]. *)
Definition strtol (s : string) : Z :=
  let (neg, r) := scan_sign (skip_space s) in
  match scan_digits r 0 with
  | (O, _, _) => 0
  | (_, v, _) =>
      if neg then Z.max LONG_MIN (- v) else Z.min LONG_MAX v
  end.

(** [atoi(s)], which glibc defines as [(int) strtol(s, NULL, 10)]. *)
Definition atoi (s : string) : Z := to_int32 (strtol s).

(** ** Files of [/proc] *)

(** What [open] and one [read] do on a file. *)
Inductive file : Type :=
| OpenFails                      (* open returns -1 *)
| ReadFails                      (* read returns -1 *)
| Content (bytes : string).      (* the file's bytes *)

Open Scope Z_scope.

(** ** [double] arithmetic *)

Class DoubleOps (D : Type) : Type := {
  d_of_Z : Z -> D;          (* an integer literal or an integer cast to double *)
  d_sub : D -> D -> D;
  d_mul : D -> D -> D;
  d_div : D -> D -> D;
  d_ltb : D -> D -> bool
}.

(** Exact arithmetic. *)
#[export] Instance Q_double : DoubleOps Q := {
  d_of_Z := inject_Z;
  d_sub := Qminus;
  d_mul := Qmult;
  d_div := Qdiv;
  d_ltb := fun a b => negb (Qle_bool b a)
}.

(** IEEE binary64, round to nearest even. *)
Definition b64_of_Z (z : Z) : PrimFloat.float :=
  FloatOps.SF2Prim (SpecFloat.binary_normalize FloatOps.prec FloatOps.emax z 0 false).

#[export] Instance b64_double : DoubleOps PrimFloat.float := {
  d_of_Z := b64_of_Z;
  d_sub := PrimFloat.sub;
  d_mul := PrimFloat.mul;
  d_div := PrimFloat.div;
  d_ltb := PrimFloat.ltb
}.

(** ** CPU usage module *)

(** The seven counters of the aggregate [cpu] line of [/proc/stat]. *)
Record cpu_times : Type := mk_cpu_times {
  user : Z;
  nice : Z;
  system : Z;
  idle : Z;
  iowait : Z;
  irq : Z;
  softirq : Z
}.

(** The static variables [prev_user] ... [prev_softirq] and [first_run]. *)
Record cpu_state : Type := mk_cpu_state {
  prev : cpu_times;
  first_run : bool
}.

Definition cpu_zero : cpu_times := mk_cpu_times 0 0 0 0 0 0 0.

(** The static initialisers: all counters 0, [first_run = 1]. *)
Definition cpu_init : cpu_state := mk_cpu_state cpu_zero true.

Definition idle_delta (p c : cpu_times) : Z := sub64 (idle c) (idle p).

Definition total_delta (p c : cpu_times) : Z :=
  let user_delta := sub64 (user c) (user p) in
  let nice_delta := sub64 (nice c) (nice p) in
  let system_delta := sub64 (system c) (system p) in
  let idle_delta := sub64 (idle c) (idle p) in
  let iowait_delta := sub64 (iowait c) (iowait p) in
  let irq_delta := sub64 (irq c) (irq p) in
  let softirq_delta := sub64 (softirq c) (softirq p) in
  add64 (add64 (add64 (add64 (add64 (add64 user_delta nice_delta) system_delta)
    idle_delta) iowait_delta) irq_delta) softirq_delta.

Section Cpu.
Context {D : Type} `{DoubleOps D}.

(** [calculateCPUUsage]: the new static state and the returned double. *)
Definition calculateCPUUsage (st : cpu_state) (cur : cpu_times) : cpu_state * D :=
  if first_run st then
    (mk_cpu_state cur false, d_of_Z (-1))
  else
    let idle_d := idle_delta (prev st) cur in
    let total_d := total_delta (prev st) cur in
    if total_d =? 0 then
      (st, d_of_Z 0)
    else
      let cpu_usage :=
        d_mul (d_of_Z 100)
              (d_sub (d_of_Z 1) (d_div (d_of_Z idle_d) (d_of_Z total_d))) in
      (mk_cpu_state cur false, cpu_usage).

(** What [getCPUUsage] prints and logs. *)
Inductive cpu_report : Type :=
| CpuError                 (* /proc/stat unreadable or unparsable *)
| CpuInitializing          (* "Initializing CPU monitoring..." *)
| CpuUsage (p : D).        (* "CPU Usage: p%" *)

(** [getCPUUsage], from the outcome of reading and parsing [/proc/stat]
    ([None]: [open], [read] or [parseCPUStats] failed). *)
Definition getCPUUsage (st : cpu_state) (parsed : option cpu_times)
  : cpu_state * cpu_report :=
  match parsed with
  | None => (st, CpuError)
  | Some cur =>
      let (st', cpu_usage) := calculateCPUUsage st cur in
      if d_ltb cpu_usage (d_of_Z 0) then (st', CpuInitializing)
      else (st', CpuUsage cpu_usage)
  end.

(** Successive calls of [getCPUUsage] on successfully parsed snapshots. *)
Fixpoint monitor (st : cpu_state) (samples : list cpu_times)
  : cpu_state * list cpu_report :=
  match samples with
  | [] => (st, [])
  | cur :: rest =>
      let (st1, r) := getCPUUsage st (Some cur) in
      let (st2, rs) := monitor st1 rest in
      (st2, r :: rs)
  end.
End Cpu.

Arguments cpu_report : clear implicits.

(** ** Memory usage module *)

(** The four values [getMemoryUsage] prints and logs. *)
Record mem_report (D : Type) : Type := mk_mem_report {
  memTotal_MB : Z;
  memUsed_MB : Z;
  memFree_MB : Z;
  usagePercent : D
}.

Arguments mk_mem_report {D}.
Arguments memTotal_MB {D}.
Arguments memUsed_MB {D}.
Arguments memFree_MB {D}.
Arguments usagePercent {D}.

(** Step 3 of [getMemoryUsage]: [memTotal_kB] and [memFree_kB], each 0
    unless its label is found. *)
Definition parse_meminfo (buffer : string) : Z * Z :=
  let memTotal_kB :=
    match strstr buffer "MemTotal:" with
    | Some totalPtr => strtol (advance 9 totalPtr)
    | None => 0
    end in
  let memFree_kB :=
    match strstr buffer "MemFree:" with
    | Some freePtr => strtol (advance 8 freePtr)
    | None => 0
    end in
  (memTotal_kB, memFree_kB).

Section Memory.
Context {D : Type} `{DoubleOps D}.

(** Step 4 of [getMemoryUsage].  [/] on [long] truncates toward zero
    ([Z.quot]); the operands of the subtraction are below [2^54] in
    absolute value, so it cannot overflow. *)
Definition memory_stats (memTotal_kB memFree_kB : Z) : mem_report D :=
  let memTotal_MB := Z.quot memTotal_kB 1024 in
  let memFree_MB := Z.quot memFree_kB 1024 in
  let memUsed_MB := memTotal_MB - memFree_MB in
  let usagePercent :=
    if memTotal_MB >? 0 then
      d_mul (d_div (d_of_Z memUsed_MB) (d_of_Z memTotal_MB)) (d_of_Z 100)
    else d_of_Z 0 in
  mk_mem_report memTotal_MB memUsed_MB memFree_MB usagePercent.

(** [getMemoryUsage] on [/proc/meminfo]: [None] when [open] or [read]
    fails, otherwise the report computed from the first 2047 bytes. *)
Definition getMemoryUsage (meminfo : file) : option (mem_report D) :=
  match meminfo with
  | OpenFails => None
  | ReadFails => None
  | Content bytes =>
      let buffer := c_str (take 2047 bytes) in
      let (memTotal_kB, memFree_kB) := parse_meminfo buffer in
      Some (memory_stats memTotal_kB memFree_kB)
  end.
End Memory.

(** ** Top processes module *)

Record ProcessInfo (D : Type) : Type := mk_ProcessInfo {
  pid : Z;
  name : string;
  utime : Z;
  stime : Z;
  total_time : Z;
  cpu_percent : option D      (* [None]: the field was never assigned *)
}.

Arguments mk_ProcessInfo {D}.
Arguments pid {D}.
Arguments name {D}.
Arguments utime {D}.
Arguments stime {D}.
Arguments total_time {D}.
Arguments cpu_percent {D}.

(** [isNumeric]: a non-empty string of decimal digits. *)
Fixpoint all_digits (str : string) : bool :=
  match str with
  | EmptyString => true
  | String c r => if isdigit c then all_digits r else false
  end.

Definition isNumeric (str : string) : bool :=
  match str with
  | EmptyString => false
  | _ => all_digits str
  end.

(** The string without its last byte when that byte is a newline. *)
Fixpoint strip_newline (s : string) : string :=
  match s with
  | EmptyString => EmptyString
  | String c EmptyString => if Ascii.eqb c "010" then EmptyString else s
  | String c r => String c (strip_newline r)
  end.

(** [readProcessName] on [/proc/PID/comm] with a 256-byte buffer: [None]
    for the return value -1. *)
Definition readProcessName (comm : file) : option string :=
  match comm with
  | OpenFails => None
  | ReadFails => None
  | Content bytes =>
      let data := take 255 bytes in
      match data with
      | EmptyString => None                          (* bytes_read <= 0 *)
      | _ => Some (c_str (strip_newline data))
      end
  end.

(** The loop of [readProcessStat] that skips [n] space-delimited fields. *)
Fixpoint skip_fields (n : nat) (ptr : string) : option string :=
  match n with
  | O => Some ptr
  | S m =>
      match strchr ptr " " with
      | None => None
      | Some p => skip_fields m (advance 1 p)
      end
  end.

(** The field loop and the [sscanf] of [readProcessStat], from the
    pointer reached by [ptr += 2]. *)
Definition parse_fields (ptr : string) : option (Z * Z) :=
  match skip_fields 11 ptr with
  | None => None
  | Some ptr =>
      match sscanf_lu_lu ptr with
      | (2%nat, utime, stime) => Some (utime, stime)
      | _ => None
      end
  end.

(** The parsing part of [readProcessStat]: [buffer] is the NUL-terminated
    record and [behind] the bytes of the array that lie behind its
    terminator.  [ptr += 2] is made whatever follows the parenthesis: when
    the parenthesis is the last byte of the record, the pointer steps over
    the terminator and the fields are looked for in [behind]. *)
Definition parse_stat (buffer behind : string) : option (Z * Z) :=
  match strchr buffer ")" with
  | None => None
  | Some ptr => parse_fields (advance_over 2 ptr behind)
  end.

(** [readProcessStat] on [/proc/PID/stat]: [Some (utime, stime)] for the
    return value 0, [None] for -1.  The array [buffer] is not initialised:
    [read] stores [bytes_read] bytes, the code stores the terminator after
    them, and [stale] is what the memory holds from the next byte on (bytes
    left on the stack, such as the end of the record read by the call
    before). *)
Definition readProcessStat (stat : file) (stale : string) : option (Z * Z) :=
  match stat with
  | OpenFails => None
  | ReadFails => None
  | Content bytes =>
      let data := take 4095 bytes in
      match data with
      | EmptyString => None                          (* bytes_read <= 0 *)
      | _ =>
          let memory := data ++ String Ascii.zero stale in
          parse_stat (c_str memory) (after_nul memory)
      end
  end.

(** [compareProcesses]: descending by [total_time]. *)
Definition compareProcesses {D : Type} (proc_a proc_b : ProcessInfo D) : Z :=
  if total_time proc_b >? total_time proc_a then 1
  else if total_time proc_b <? total_time proc_a then -1
  else 0.

(** What one census pass reads: the process table, and the bytes that
    [readProcessStat] finds in its array behind the record of a process. *)
Record procfs : Type := mk_procfs {
  proc_entries : option (list string);   (* [readdir] order; [None]: [opendir] fails *)
  stat_file : Z -> file;                 (* /proc/PID/stat *)
  comm_file : Z -> file;                 (* /proc/PID/comm *)
  stale_bytes : Z -> string              (* [stale] of [readProcessStat] for PID *)
}.

(** What C promises of [qsort] with a comparison function: the array is
    rearranged, and each element compares [<= 0] with its successor.  The
    order of equal elements is left open. *)
Definition qsort_contract {A : Type} (cmp : A -> A -> Z)
  (sort : list A -> list A) : Prop :=
  forall l, Permutation l (sort l) /\ Sorted (fun a b => cmp a b <= 0) (sort l).

Section Census.
Context {D : Type} `{DoubleOps D}.
Variable qsort : list (ProcessInfo D) -> list (ProcessInfo D).

(** The body of the [while] loop for one directory entry: the record
    stored, or [None] when the entry is skipped by [continue]. *)
Definition read_process (fs : procfs) (d_name : string) : option (ProcessInfo D) :=
  if isNumeric d_name then
    let pid := atoi d_name in
    match readProcessStat (stat_file fs pid) (stale_bytes fs pid) with
    | None => None
    | Some (utime, stime) =>
        let name :=
          match readProcessName (comm_file fs pid) with
          | Some n => n
          | None => "[unknown]"%string
          end in
        Some (mk_ProcessInfo pid (take 255 name) utime stime
                             (add64 utime stime) None)
    end
  else None.

(** The [while] loop: [processes] holds the records stored so far, in
    order, and [process_count] is its length. *)
Fixpoint scan_entries (fs : procfs) (entries : list string)
  (processes : list (ProcessInfo D)) : list (ProcessInfo D) :=
  match entries with
  | [] => processes
  | entry :: rest =>
      if Z.of_nat (List.length processes) <? 1024 then
        match read_process fs entry with
        | None => scan_entries fs rest processes
        | Some p => scan_entries fs rest (processes ++ [p])%list
        end
      else processes
  end.

Definition relative_percent (max_time : Z) (p : ProcessInfo D) : ProcessInfo D :=
  mk_ProcessInfo (pid p) (name p) (utime p) (stime p) (total_time p)
    (Some (d_div (d_mul (d_of_Z 100) (d_of_Z (total_time p))) (d_of_Z max_time))).

(** The percentage loop over the sorted, non-empty array. *)
Definition set_percentages (processes : list (ProcessInfo D)) : list (ProcessInfo D) :=
  match processes with
  | [] => []
  | top :: _ =>
      let max_time := total_time top in
      if max_time >? 0 then map (relative_percent max_time) processes
      else processes
  end.

(** The whole array after [qsort] and the percentage loop. *)
Definition rank_processes (processes : list (ProcessInfo D)) : list (ProcessInfo D) :=
  set_percentages (qsort processes).

Inductive census_report : Type :=
| ProcUnavailable                              (* opendir failed *)
| NoProcesses                                  (* "No processes found." *)
| TopProcesses (rows : list (ProcessInfo D)).  (* the table printed *)

Definition listTopProcesses (fs : procfs) : census_report :=
  match proc_entries fs with
  | None => ProcUnavailable
  | Some entries =>
      let processes := scan_entries fs entries [] in
      match processes with
      | [] => NoProcesses
      | _ => TopProcesses (firstn 5 (rank_processes processes))
      end
  end.
End Census.

Arguments census_report : clear implicits.

(** * Vocabulary of the properties *)

(** ** CPU samples *)

Definition cpu_sum (c : cpu_times) : Z :=
  user c + nice c + system c + idle c + iowait c + irq c + softirq c.

(** Every counter is a 64-bit unsigned value. *)
Definition cpu_valid (c : cpu_times) : Prop :=
  is_u64 (user c) /\ is_u64 (nice c) /\ is_u64 (system c) /\ is_u64 (idle c) /\
  is_u64 (iowait c) /\ is_u64 (irq c) /\ is_u64 (softirq c).

(** No counter of [c] is below its value in [p]. *)
Definition cpu_le (p c : cpu_times) : Prop :=
  user p <= user c /\ nice p <= nice c /\ system p <= system c /\
  idle p <= idle c /\ iowait p <= iowait c /\ irq p <= irq c /\
  softirq p <= softirq c.

(** [c] follows [p]: valid, not below [p], and the seven differences sum
    to less than [2^64], so that [total_delta] does not wrap. *)
Definition follows (p c : cpu_times) : Prop :=
  cpu_valid c /\ cpu_le p c /\ cpu_sum c - cpu_sum p <= ULONG_MAX.


(** ** Strings and stat lines *)

Open Scope string_scope.

(** [t] occurs in [s] as a substring. *)
Definition occurs (t s : string) : Prop :=
  exists pre post, s = pre ++ t ++ post.

(** The parser the specification describes: anchored on the last closing
    parenthesis of the line, it reads the fields that follow the
    parenthesis and its blank in the record. *)
Definition spec_parse_stat (buffer : string) : option (Z * Z) :=
  match strrchr buffer ")" with
  | None => None
  | Some ptr =>
      match skip_fields 11 (advance 2 ptr) with
      | None => None
      | Some ptr =>
          match sscanf_lu_lu ptr with
          | (2%nat, utime, stime) => Some (utime, stime)
          | _ => None
          end
      end
  end.

(** The stat line of proc(5): field 1 is the pid, field 2 the name in
    parentheses, and [fields] are fields 3, 4, ... in order, so that
    utime (field 14) and stime (field 15) are [fields] 11 and 12. *)
Definition stat_line (pid comm : string) (fields : list string) : string :=
  pid ++ " (" ++ comm ++ ") " ++ String.concat " " fields.

Definition weird_fields : list string :=
  ["S"; "1"; "1234"; "1234"; "0"; "-1"; "4194304"; "120"; "0"; "3"; "0";
   "111"; "222"; "0"; "0"; "20"; "0"; "1"; "0"; "5000"; "0"; "0"].

(** The line of a process named [my (weird) proc] with utime 111 and stime 222. *)
Definition weird_stat : string := stat_line "1234" "my (weird) proc" weird_fields.

(** The decimal numeral of a number, as the kernel prints a counter. *)
Definition numeral (n : N) : string :=
  DecimalString.NilEmpty.string_of_uint (N.to_uint n).

Definition starts_with_digit (s : string) : bool :=
  match s with
  | String c _ => isdigit c
  | EmptyString => false
  end.

Open Scope Z_scope.

(** The number a sequence of decimal digits denotes after [acc]. *)
Fixpoint uint_value (d : Decimal.uint) (acc : Z) : Z :=
  match d with
  | Decimal.Nil => acc
  | Decimal.D0 l => uint_value l (10 * acc + 0)
  | Decimal.D1 l => uint_value l (10 * acc + 1)
  | Decimal.D2 l => uint_value l (10 * acc + 2)
  | Decimal.D3 l => uint_value l (10 * acc + 3)
  | Decimal.D4 l => uint_value l (10 * acc + 4)
  | Decimal.D5 l => uint_value l (10 * acc + 5)
  | Decimal.D6 l => uint_value l (10 * acc + 6)
  | Decimal.D7 l => uint_value l (10 * acc + 7)
  | Decimal.D8 l => uint_value l (10 * acc + 8)
  | Decimal.D9 l => uint_value l (10 * acc + 9)
  end.

(** ** Census *)

(** The records of all entries of a directory, with no bound on their number. *)
Definition all_records {D : Type} (fs : procfs) (entries : list string)
  : list (ProcessInfo D) :=
  flat_map (fun e => match read_process fs e with
                     | Some p => [p]
                     | None => []
                     end) entries.

(** An insertion sort with [compareProcesses]: one function that meets
    the contract of [qsort]. *)
Fixpoint insert_desc {D : Type} (p : ProcessInfo D) (l : list (ProcessInfo D))
  : list (ProcessInfo D) :=
  match l with
  | [] => [p]
  | q :: r => if compareProcesses p q <=? 0 then p :: l else q :: insert_desc p r
  end.

Fixpoint sort_desc (D : Type) (l : list (ProcessInfo D)) : list (ProcessInfo D) :=
  match l with
  | [] => []
  | p :: r => insert_desc p (sort_desc D r)
  end.

(** Descending order on numbers. *)
Definition descending (l : list Z) : Prop := StronglySorted (fun x y => y <= x) l.

(** What the scan stored of a record: every member but the percentage. *)
Definition stored_data {D : Type} (p : ProcessInfo D) : Z * string * Z * Z * Z :=
  (pid p, name p, utime p, stime p, total_time p).

(** * Sample inputs *)

(** The state after a first call on an all-zero sample. *)
Definition warm_zero : cpu_state := mk_cpu_state cpu_zero false.

(** Two counters advance by [2^63] each: the seven differences sum to
    [2^64], which is 0 in 64 bits. *)
Definition wrap_sample : cpu_times := mk_cpu_times (2 ^ 63) (2 ^ 63) 0 0 0 0 0.

(** The differences sum to [2^64 + 2], which is 2 in 64 bits, below the
    idle difference 3. *)
Definition overflow_sample : cpu_times :=
  mk_cpu_times (2 ^ 63) (2 ^ 63 - 1) 0 3 0 0 0.

Open Scope string_scope.


(** A blob without [MemFree:] whose total is below one megabyte, and a
    blob with neither label. *)
Definition meminfo_small : string := "MemTotal:            512 kB
Buffers:             100 kB
".

Definition meminfo_other : string := "SwapTotal:       2097148 kB
SwapFree:        2097148 kB
".

Definition meminfo_no_free : string := "MemTotal:       16777216 kB
Buffers:          204800 kB
".

(** A stat line for a process named [comm] with the given tick counts. *)
Definition stat_text (pid comm utime stime : string) : string :=
  stat_line pid comm
    ["S"; "1"; "1"; "1"; "0"; "-1"; "4194560"; "120"; "0"; "3"; "0";
     utime; stime; "0"; "0"; "20"; "0"; "1"; "0"; "100"; "0"; "0"].

(** A process table with five numeric entries among others: process 2
    has exited before its stat file is opened, process 57 before its comm
    file is opened. *)
Definition five_fs : procfs :=
  mk_procfs
    (Some ["."; ".."; "1"; "2"; "self"; "30"; "44"; "57"; "cpuinfo"])
    (fun pid =>
       if pid =? 1 then Content (stat_text "1" "init" "20" "10")
       else if pid =? 30 then Content (stat_text "30" "cc1" "40" "10")
       else if pid =? 44 then Content (stat_text "44" "bash" "7" "3")
       else if pid =? 57 then Content (stat_text "57" "sleep" "0" "0")
       else OpenFails)%Z
    (fun pid =>
       if pid =? 1 then Content "init
"
       else if pid =? 30 then Content "cc1
"
       else if pid =? 44 then Content "bash
"
       else OpenFails)%Z
    (fun _ => EmptyString).


(** The name of the directory entry of process [n]. *)
Definition decimal (n : nat) : string := numeral (N.of_nat n).

(** A process table with 1500 readable processes, named 1 to 1500. *)
Definition crowded_fs : procfs :=
  mk_procfs (Some (map decimal (seq 1 1500)))
            (fun pid => Content (stat_text (numeral (Z.to_N pid)) "worker" "5" "5"))
            (fun pid => Content "worker
")
            (fun _ => EmptyString).

(** A process table in which the stat file of process 2 delivers a
    malformed record, one that ends at the closing parenthesis of the name.
    Process 1 is read just before it, and [readProcessStat] finds its array
    as that call left it: behind the 8 bytes of the new record and their
    terminator lies the record of process 1 from byte 9 on. *)
Definition cut_fs : procfs :=
  mk_procfs
    (Some ["."; ".."; "1"; "2"])
    (fun pid =>
       if pid =? 1 then Content (stat_text "1" "init" "40" "10")
       else if pid =? 2 then Content "2 (bash)"
       else OpenFails)%Z
    (fun pid =>
       if pid =? 1 then Content "init
"
       else if pid =? 2 then Content "bash
"
       else OpenFails)%Z
    (fun pid =>
       if pid =? 2 then advance 9 (stat_text "1" "init" "40" "10")
       else EmptyString)%Z.

(** A process table with seven readable processes, 11 to 17, whose totals
    are 3, 9, 1, 7, 5, 8 and 2 ticks. *)
Definition seven_fs : procfs :=
  mk_procfs
    (Some ["11"; "12"; "13"; "14"; "15"; "16"; "17"])
    (fun pid =>
       if pid =? 11 then Content (stat_text "11" "a" "3" "0")
       else if pid =? 12 then Content (stat_text "12" "b" "4" "5")
       else if pid =? 13 then Content (stat_text "13" "c" "0" "1")
       else if pid =? 14 then Content (stat_text "14" "d" "6" "1")
       else if pid =? 15 then Content (stat_text "15" "e" "2" "3")
       else if pid =? 16 then Content (stat_text "16" "f" "8" "0")
       else if pid =? 17 then Content (stat_text "17" "g" "1" "1")
       else OpenFails)%Z
    (fun _ => OpenFails)
    (fun _ => EmptyString).

Open Scope Z_scope.

(** Five records with totals 30, 0, 50, 10 and 50, in directory order. *)
Definition ranking_example (D : Type) : list (ProcessInfo D) :=
  [ mk_ProcessInfo 101 "sshd" 20 10 30 None;
    mk_ProcessInfo 102 "kworker/0:1" 0 0 0 None;
    mk_ProcessInfo 103 "cc1" 40 10 50 None;
    mk_ProcessInfo 104 "bash" 7 3 10 None;
    mk_ProcessInfo 105 "make" 25 25 50 None ].

(** A census of one process that has used no CPU time, and one of a
    process with [4245976521163064] ticks. *)
Definition idle_process (D : Type) : ProcessInfo D :=
  mk_ProcessInfo 2 "kthreadd" 0 0 0 None.

Definition busy_process (D : Type) : ProcessInfo D :=
  mk_ProcessInfo 1 "init" 4245976521163064 0 4245976521163064 None.

(** * Further functions of [sysmonitor.c] *)

(** ** Reading [/proc/stat] *)

(** Successive [%llu] conversions of one [sscanf] call, at most [n]: the
    values stored, in order; the scan stops at the first conversion that
    fails.  The blanks of the format skip white space, as each conversion
    does. *)
Fixpoint scan_ulongs (n : nat) (s : string) : list Z :=
  match n with
  | O => []
  | S m =>
      match scan_ulong s with
      | None => []
      | Some (v, r) => v :: scan_ulongs m r
      end
  end.

(** [parseCPUStats]: [None] for the return value -1.  The line found by
    [strstr] begins with the literal [cpu] of the format, which [sscanf]
    steps over before the seven conversions. *)
Definition parseCPUStats (buffer : string) : option cpu_times :=
  match strstr buffer "cpu " with
  | None => None
  | Some line =>
      match scan_ulongs 7 (advance 3 line) with
      | [user; nice; system; idle; iowait; irq; softirq] =>
          Some (mk_cpu_times user nice system idle iowait irq softirq)
      | _ => None                                    (* parsed < 7 *)
      end
  end.

(** The first part of [getCPUUsage]: open and read [/proc/stat] into a
    4096-byte buffer, then [parseCPUStats]. *)
Definition read_cpu_stats (stat : file) : option cpu_times :=
  match stat with
  | OpenFails => None
  | ReadFails => None
  | Content bytes => parseCPUStats (c_str (take 4095 bytes))
  end.

Section CpuFiles.
Context {D : Type} `{DoubleOps D}.

(** Successive calls of [getCPUUsage], each on what [/proc/stat] holds at
    that moment. *)
Fixpoint monitor_files (st : cpu_state) (stats : list file)
  : cpu_state * list (cpu_report D) :=
  match stats with
  | [] => (st, [])
  | f :: rest =>
      let (st1, r) := getCPUUsage st (read_cpu_stats f) in
      let (st2, rs) := monitor_files st1 rest in
      (st2, r :: rs)
  end.

Definition is_cpu_error (r : cpu_report D) : bool :=
  match r with
  | CpuError => true
  | _ => false
  end.
End CpuFiles.

(** The samples of the reads that succeed, in order. *)
Definition parsed_samples (stats : list file) : list cpu_times :=
  flat_map (fun f => match read_cpu_stats f with
                     | Some c => [c]
                     | None => []
                     end) stats.

(** The aggregate line of [/proc/stat] for the counters [c], followed by [rest]. *)
Definition cpu_text (c : cpu_times) (rest : string) : string :=
  ("cpu  " ++ numeral (Z.to_N (user c)) ++ " " ++ numeral (Z.to_N (nice c)) ++ " "
   ++ numeral (Z.to_N (system c)) ++ " " ++ numeral (Z.to_N (idle c)) ++ " "
   ++ numeral (Z.to_N (iowait c)) ++ " " ++ numeral (Z.to_N (irq c)) ++ " "
   ++ numeral (Z.to_N (softirq c)) ++ rest)%string.

(** The snapshot whose counters are those of [p] advanced by [d], each in
    64 bits. *)
Definition advance_counters (p d : cpu_times) : cpu_times :=
  mk_cpu_times (wrap64 (user p + user d)) (wrap64 (nice p + nice d))
               (wrap64 (system p + system d)) (wrap64 (idle p + idle d))
               (wrap64 (iowait p + iowait d)) (wrap64 (irq p + irq d))
               (wrap64 (softirq p + softirq d)).

(** ** Reading [/proc/meminfo] *)

(** [k] blanks. *)
Fixpoint spaces (k : nat) : string :=
  match k with
  | O => EmptyString
  | S m => String " " (spaces m)
  end.

(** The head of [/proc/meminfo] as the kernel prints it: the two labels
    with their values in kB, each padded with blanks, then [rest]. *)
Definition meminfo_text (k1 : nat) (total : N) (k2 : nat) (free : N)
  (rest : string) : string :=
  ("MemTotal:" ++ spaces k1 ++ numeral total ++ " kB" ++ String "010"
   ("MemFree:" ++ spaces k2 ++ numeral free ++ " kB" ++ String "010" rest))%string.

(** ** Records of the census *)

(** What every stored record satisfies: the ranges of its C types. *)
Definition record_in_range {D : Type} (p : ProcessInfo D) : Prop :=
  - 2 ^ 31 <= pid p < 2 ^ 31 /\
  (String.length (name p) <= 255)%nat /\
  is_u64 (utime p) /\ is_u64 (stime p) /\
  total_time p = wrap64 (utime p + stime p) /\
  cpu_percent p = None.

(** ** Menu and command line *)

Open Scope string_scope.

(** [scanf("%d", &choice)] on the unread part of the standard input:
    white space, an optional sign, at least one digit.  The result is the
    value stored, that of [strtol] converted to [int], and the input left
    unread; [None] when no number is there, where [scanf] returns 0, or
    [EOF] at the end of the input. *)
Definition scanf_d (stdin : string) : option (Z * string) :=
  let (neg, r) := scan_sign (skip_space stdin) in
  match scan_digits r 0 with
  | (O, _, _) => None
  | (_, _, rest) => Some (atoi stdin, rest)
  end.

(** [while (getchar() != '\n');]: the input after the next newline.  When
    the input ends before a newline, [getchar] returns [EOF] from then on
    and the loop does not end: [None]. *)
Definition discard_line (stdin : string) : option string :=
  match strchr stdin "010" with
  | None => None
  | Some p => Some (advance 1 p)
  end.

(** What one turn of the menu loop does before the next prompt. *)
Inductive menu_step : Type :=
| ShowCpu                       (* case 1: getCPUUsage() *)
| ShowMem                       (* case 2: getMemoryUsage() *)
| ShowProc                      (* case 3: listTopProcesses() *)
| InvalidChoice                 (* default: "Invalid choice. Please select 1-5." *)
| InvalidInput.                 (* scanf != 1: "Invalid input. Please enter a number." *)

(** How the menu loop leaves off. *)
Inductive menu_end : Type :=
| MenuExit                      (* case 5: running = 0, displayMenu returns *)
| MenuMonitor (interval : Z)    (* case 4: continuousMonitor(interval), which loops
                                   while running is set *)
| MenuStuck.                    (* the input has ended: the loop on getchar goes on *)

Definition menu_then (step : menu_step) (r : list menu_step * option menu_end)
  : list menu_step * option menu_end :=
  let (steps, e) := r in (step :: steps, e).

(** [displayMenu] on the standard input [stdin], a finite sequence of
    bytes followed by the end of the input, when no signal arrives: the
    steps of the turns made, and how the loop leaves off.  [fuel] bounds
    the number of turns; the end is [None] when it is used up. *)
Fixpoint displayMenu (fuel : nat) (stdin : string) : list menu_step * option menu_end :=
  match fuel with
  | O => ([], None)
  | S fuel =>
      match scanf_d stdin with
      | None =>
          (* a sign that scanf has read is not a newline: the loop on
             getchar behaves as from the end of the white space *)
          match discard_line (skip_space stdin) with
          | None => ([InvalidInput], Some MenuStuck)
          | Some stdin => menu_then InvalidInput (displayMenu fuel stdin)
          end
      | Some (choice, stdin) =>
          if choice =? 1 then menu_then ShowCpu (displayMenu fuel stdin)
          else if choice =? 2 then menu_then ShowMem (displayMenu fuel stdin)
          else if choice =? 3 then menu_then ShowProc (displayMenu fuel stdin)
          else if choice =? 4 then ([], Some (MenuMonitor 2))
          else if choice =? 5 then ([], Some MenuExit)
          else menu_then InvalidChoice (displayMenu fuel stdin)
      end%Z
  end.

(** What [main] does after opening the log, by its arguments and, in
    menu mode, by the standard input. *)
Inductive action : Type :=
| Menu (steps : list menu_step) (e : option menu_end)   (* displayMenu() *)
| ShowHelp                      (* displayHelp() *)
| CpuTwice                      (* getCPUUsage(); sleep(1); getCPUUsage() *)
| MemOnce                       (* getMemoryUsage() *)
| ProcOnce                      (* listTopProcesses() *)
| InvalidParameter              (* "Error: Invalid Parameter..." *)
| Continuous (interval : Z)     (* continuousMonitor(interval) *)
| BadInterval                   (* "Error: interval must be a positive integer" *)
| InvalidOption.                (* "Invalid option: Use -h for help." *)

(** The dispatch of [main] on [argv] ([argc] is its length).  Every turn
    of the menu reads at least one byte, so one more turn than the input
    has bytes is enough ([displayMenu_ends]). *)
Definition main_action (argv : list string) (stdin : string) : action :=
  match argv with
  | [_] =>
      let (steps, e) := displayMenu (S (String.length stdin)) stdin in Menu steps e
  | [_; a1] => if String.eqb a1 "-h" then ShowHelp else InvalidOption
  | [_; a1; a2] =>
      if String.eqb a1 "-m" then
        if String.eqb a2 "cpu" then CpuTwice
        else if String.eqb a2 "mem" then MemOnce
        else if String.eqb a2 "proc" then ProcOnce
        else InvalidParameter
      else if String.eqb a1 "-c" then
        let interval := atoi a2 in
        if (interval <=? 0)%Z then BadInterval else Continuous interval
      else InvalidOption
  | _ => InvalidOption
  end.

(** The interval with which [continuousMonitor] is called, if it is. *)
Definition monitor_interval (a : action) : option Z :=
  match a with
  | Continuous interval => Some interval
  | Menu _ (Some (MenuMonitor interval)) => Some interval
  | _ => None
  end.

(** A script typed at the menu: one number per line. *)
Fixpoint menu_script (choices : list N) : string :=
  match choices with
  | [] => EmptyString
  | c :: rest => numeral c ++ String "010" (menu_script rest)
  end.

(** The step a menu entry stands for, other than 4 and 5. *)
Definition menu_choice (c : N) : menu_step :=
  if (c =? 1)%N then ShowCpu
  else if (c =? 2)%N then ShowMem
  else if (c =? 3)%N then ShowProc
  else InvalidChoice.

(** What the menu is meant to do with a script: the choices in order up
    to the first 4 or 5; when the script ends first, one more prompt is
    answered by the end of the input. *)
Fixpoint menu_trace (choices : list N) : list menu_step * menu_end :=
  match choices with
  | [] => ([InvalidInput], MenuStuck)
  | c :: rest =>
      if (c =? 4)%N then ([], MenuMonitor 2)
      else if (c =? 5)%N then ([], MenuExit)
      else let (steps, e) := menu_trace rest in (menu_choice c :: steps, e)
  end.

Open Scope Z_scope.

(** * Properties *)

(** ** CPU usage *)

Lemma wrap64_small (z : Z) : 0 <= z <= ULONG_MAX -> wrap64 z = z.
Proof.
  unfold wrap64, ULONG_MAX. intros Hz. apply Z.mod_small. lia.
Qed.

Lemma add64_wrap (a b : Z) : add64 (wrap64 a) (wrap64 b) = wrap64 (a + b).
Proof.
  unfold add64, wrap64. symmetry. apply Zplus_mod.
Qed.

(** The 64-bit sum of the 64-bit differences is the difference of the
    sums, reduced once. *)
Lemma total_delta_wrap (p c : cpu_times) :
  total_delta p c = wrap64 (cpu_sum c - cpu_sum p).
Proof.
  unfold total_delta, sub64.
  repeat rewrite add64_wrap.
  unfold cpu_sum. f_equal. ring.
Qed.

Lemma total_delta_same (p : cpu_times) : total_delta p p = 0.
Proof.
  rewrite total_delta_wrap. replace (cpu_sum p - cpu_sum p) with 0 by ring.
  reflexivity.
Qed.

Lemma follows_deltas (p c : cpu_times) :
  cpu_valid p -> follows p c ->
  total_delta p c = cpu_sum c - cpu_sum p /\
  idle_delta p c = idle c - idle p /\
  0 <= idle_delta p c <= total_delta p c.
Proof.
  unfold follows, cpu_valid, cpu_le, is_u64.
  intros Hp (Hc & Hle & Hsum).
  assert (Ht : total_delta p c = cpu_sum c - cpu_sum p).
  { rewrite total_delta_wrap. apply wrap64_small. unfold cpu_sum in *. lia. }
  assert (Hi : idle_delta p c = idle c - idle p).
  { unfold idle_delta, sub64. apply wrap64_small. lia. }
  rewrite Ht, Hi. unfold cpu_sum. lia.
Qed.

(** Without wrap-around a zero total means that nothing moved. *)
Lemma follows_zero_same (p c : cpu_times) :
  cpu_valid p -> follows p c -> total_delta p c = 0 -> c = p.
Proof.
  intros Hp Hf H0. destruct (follows_deltas p c Hp Hf) as (Ht & _ & _).
  rewrite Ht in H0. destruct Hf as (_ & Hle & _).
  unfold cpu_le, cpu_sum in *. destruct p, c; simpl in *.
  f_equal; lia.
Qed.

(** The retained snapshot is rewritten on the first-run path and on the
    normal path. *)
Lemma calculateCPUUsage_stores {D : Type} `{DoubleOps D}
  (st : cpu_state) (cur : cpu_times) :
  first_run st = true \/ total_delta (prev st) cur <> 0 ->
  fst (calculateCPUUsage st cur) = mk_cpu_state cur false.
Proof.
  unfold calculateCPUUsage. intros [Hf | Ht].
  - rewrite Hf. reflexivity.
  - destruct (first_run st); [reflexivity|].
    destruct (Z.eqb_spec (total_delta (prev st) cur) 0); [contradiction|reflexivity].
Qed.

(** On the zero-delta path the state is returned as it was. *)
Lemma calculateCPUUsage_zero {D : Type} `{DoubleOps D}
  (st : cpu_state) (cur : cpu_times) :
  first_run st = false -> total_delta (prev st) cur = 0 ->
  calculateCPUUsage st cur = (st, d_of_Z 0).
Proof.
  unfold calculateCPUUsage. intros -> ->. reflexivity.
Qed.

(** When [total_delta] does not wrap, the retained snapshot is [cur] after
    the call, on every path. *)
Lemma calculateCPUUsage_advances {D : Type} `{DoubleOps D}
  (st : cpu_state) (cur : cpu_times) :
  cpu_valid (prev st) -> follows (prev st) cur ->
  fst (calculateCPUUsage st cur) = mk_cpu_state cur false.
Proof.
  intros Hp Hf.
  destruct (first_run st) eqn:Hfr.
  - apply calculateCPUUsage_stores. now left.
  - destruct (Z.eq_dec (total_delta (prev st) cur) 0) as [H0 | H0].
    + rewrite calculateCPUUsage_zero by assumption. simpl.
      rewrite (follows_zero_same _ _ Hp Hf H0).
      destruct st; simpl in *. now subst.
    + apply calculateCPUUsage_stores. now right.
Qed.

(** The value returned once [first_run] is cleared, in exact arithmetic. *)
Lemma calculateCPUUsage_value (st : cpu_state) (cur : cpu_times) :
  first_run st = false ->
  snd (calculateCPUUsage (D:=Q) st cur) =
  if total_delta (prev st) cur =? 0 then 0%Q
  else (100 * (1 - inject_Z (idle_delta (prev st) cur)
                   / inject_Z (total_delta (prev st) cur)))%Q.
Proof.
  unfold calculateCPUUsage. intros ->.
  destruct (total_delta (prev st) cur =? 0); reflexivity.
Qed.

Lemma usage_range (i t : Z) :
  0 <= i <= t -> 0 < t ->
  (0 <= 100 * (1 - inject_Z i / inject_Z t) <= 100)%Q.
Proof.
  intros [Hi Hit] Ht.
  assert (Htq : (0 < inject_Z t)%Q).
  { change (inject_Z 0 < inject_Z t)%Q. rewrite <- Zlt_Qlt. exact Ht. }
  assert (H0 : (0 <= inject_Z i / inject_Z t)%Q).
  { apply Qle_shift_div_l; [exact Htq|]. rewrite Qmult_0_l.
    change (inject_Z 0 <= inject_Z i)%Q. rewrite <- Zle_Qle. exact Hi. }
  assert (H1 : (inject_Z i / inject_Z t <= 1)%Q).
  { apply Qle_shift_div_r; [exact Htq|]. rewrite Qmult_1_l.
    rewrite <- Zle_Qle. exact Hit. }
  set (x := (inject_Z i / inject_Z t)%Q) in *. clearbody x.
  split; lra.
Qed.

Lemma usage_all_idle (t : Z) :
  0 < t -> (100 * (1 - inject_Z t / inject_Z t) == 0)%Q.
Proof.
  intros Ht. field. intros Hq.
  assert (H : inject_Z t == inject_Z 0) by exact Hq.
  rewrite inject_Z_injective in H. lia.
Qed.

Lemma usage_all_busy (t : Z) :
  0 < t -> (100 * (1 - inject_Z 0 / inject_Z t) == 100)%Q.
Proof.
  intros Ht. field. intros Hq.
  assert (H : inject_Z t == inject_Z 0) by exact Hq.
  rewrite inject_Z_injective in H. lia.
Qed.





Ltac cpu_side :=
  unfold cpu_valid, cpu_le, follows, is_u64, cpu_sum, ULONG_MAX; simpl; lia.

(** C3, amended.  After every call whose sample follows the retained
    snapshot, that is with 64-bit counters none of which is below the
    retained one and whose seven differences sum to less than [2^64], the
    retained snapshot is that sample and the first-run flag is cleared.
    This holds on the three paths: the first-run path and the normal path
    store the sample; the zero-delta path returns 0.0 before the
    assignments to [prev_*], and there the sample is the retained snapshot
    itself. *)
Theorem retained_snapshot_advances {D : Type} `{DoubleOps D}
  (st : cpu_state) (cur : cpu_times) :
  cpu_valid (prev st) -> follows (prev st) cur ->
  fst (calculateCPUUsage st cur) = mk_cpu_state cur false /\
  prev (fst (calculateCPUUsage st cur)) = cur /\
  (first_run st = false -> total_delta (prev st) cur = 0 ->
   cur = prev st /\ calculateCPUUsage st cur = (st, d_of_Z 0)).
Proof.
  intros Hp Hf.
  pose proof (calculateCPUUsage_advances st cur Hp Hf) as Hst.
  split; [exact Hst|]. split; [now rewrite Hst|].
  intros Hfr H0. split; [now apply follows_zero_same|].
  now apply calculateCPUUsage_zero.
Qed.

Lemma retained_snapshot_advances_witness :
  cpu_valid (prev warm_zero) /\
  follows (prev warm_zero) (mk_cpu_times 25 0 15 160 0 0 0) /\
  follows (prev warm_zero) cpu_zero /\
  fst (calculateCPUUsage (D:=Q) warm_zero (mk_cpu_times 25 0 15 160 0 0 0))
  = mk_cpu_state (mk_cpu_times 25 0 15 160 0 0 0) false /\
  total_delta (prev warm_zero) cpu_zero = 0 /\
  prev (fst (calculateCPUUsage (D:=Q) warm_zero cpu_zero)) = cpu_zero.
Proof.
  assert (Hp : cpu_valid (prev warm_zero)) by cpu_side.
  assert (Hf : follows (prev warm_zero) (mk_cpu_times 25 0 15 160 0 0 0))
    by (repeat split; cpu_side).
  assert (Hz : follows (prev warm_zero) cpu_zero) by (repeat split; cpu_side).
  split; [exact Hp|]. split; [exact Hf|]. split; [exact Hz|].
  split; [exact (proj1 (retained_snapshot_advances (D:=Q) warm_zero _ Hp Hf))|].
  split; [reflexivity|].
  exact (proj1 (proj2 (retained_snapshot_advances (D:=Q) warm_zero _ Hp Hz))).
Defined.

(** C3, as stated, fails: counters that are not below the retained ones
    do not make the retained snapshot advance on the zero-delta path.
    [calculateCPUUsage] returns from that path before the assignments to
    [prev_*]: after a first call on the all-zero sample, the call on
    [wrap_sample] (no counter below the retained one, differences summing
    to [2^64], so [total_delta] = 0 in 64 bits) returns 0.0 and leaves the
    all-zero snapshot in place. *)
Lemma calculateCPUUsage_zero_delta_stale :
  fst (calculateCPUUsage (D:=Q) cpu_init cpu_zero) = warm_zero /\
  cpu_valid wrap_sample /\ cpu_le (prev warm_zero) wrap_sample /\
  total_delta (prev warm_zero) wrap_sample = 0 /\
  calculateCPUUsage (D:=Q) warm_zero wrap_sample = (warm_zero, 0%Q) /\
  prev (fst (calculateCPUUsage (D:=Q) warm_zero wrap_sample)) <> wrap_sample.
Proof.
  split; [reflexivity|].
  split; [cpu_side|].
  split; [cpu_side|].
  split; [reflexivity|].
  split; [reflexivity|].
  vm_compute. discriminate.
Qed.




(** C5.  On a call after the first whose 64-bit total of the seven
    differences is 0, and in particular when the sample equals the retained
    snapshot, [calculateCPUUsage] returns exactly 0.0 and [getCPUUsage]
    reports the percentage 0.0; no division takes place. *)
Theorem zero_delta_reports_zero (st : cpu_state) (cur : cpu_times) :
  first_run st = false ->
  total_delta (prev st) cur = 0 \/ cur = prev st ->
  calculateCPUUsage (D:=Q) st cur = (st, 0%Q) /\
  getCPUUsage (D:=Q) st (Some cur) = (st, CpuUsage 0%Q) /\
  calculateCPUUsage (D:=PrimFloat.float) st cur = (st, b64_of_Z 0) /\
  getCPUUsage (D:=PrimFloat.float) st (Some cur) = (st, CpuUsage (b64_of_Z 0)).
Proof.
  intros Hfr Hz.
  assert (H0 : total_delta (prev st) cur = 0).
  { destruct Hz as [Hz | ->]; [exact Hz | apply total_delta_same]. }
  unfold getCPUUsage.
  rewrite (calculateCPUUsage_zero (D:=Q) st cur Hfr H0).
  rewrite (calculateCPUUsage_zero (D:=PrimFloat.float) st cur Hfr H0).
  repeat split.
Qed.

Lemma zero_delta_reports_zero_witness :
  let st := mk_cpu_state (mk_cpu_times 130 0 60 900 60 0 0) false in
  let cur := mk_cpu_times 130 0 60 900 60 0 0 in
  first_run st = false /\ cur = prev st /\
  getCPUUsage (D:=Q) st (Some cur) = (st, CpuUsage 0%Q).
Proof.
  intros st cur.
  split; [reflexivity|]. split; [reflexivity|].
  exact (proj1 (proj2 (zero_delta_reports_zero st cur eq_refl (or_intror eq_refl)))).
Defined.

(** C6, as stated, fails: with every difference non-negative and a
    positive 64-bit total, the percentage can leave [0, 100].  On
    [overflow_sample] after the all-zero snapshot the total wraps to 2, the
    idle difference is 3, and the result is -50. *)
Lemma usage_below_zero_on_wrap :
  cpu_valid overflow_sample /\ cpu_le (prev warm_zero) overflow_sample /\
  0 < total_delta (prev warm_zero) overflow_sample /\
  (snd (calculateCPUUsage (D:=Q) warm_zero overflow_sample) == -50)%Q /\
  snd (calculateCPUUsage (D:=PrimFloat.float) warm_zero overflow_sample)
    = b64_of_Z (-50) /\
  ~ (0 <= snd (calculateCPUUsage (D:=Q) warm_zero overflow_sample))%Q.
Proof.
  split; [cpu_side|].
  split; [cpu_side|].
  split; [reflexivity|].
  split; [reflexivity|].
  split; [vm_compute; reflexivity|].
  vm_compute. intros H. apply H. reflexivity.
Qed.

(** C6 (amended).  On a call after the first whose sample follows the
    retained one (every difference non-negative, their sum below [2^64])
    with a positive total, the usage 100 * (1 - idle_delta / total_delta)
    lies in [0, 100]; it is 0 when the idle difference is the whole total
    and 100 when the idle difference is 0. *)
Theorem cpu_usage_bounds (st : cpu_state) (cur : cpu_times) :
  first_run st = false -> cpu_valid (prev st) -> follows (prev st) cur ->
  0 < total_delta (prev st) cur ->
  let u := snd (calculateCPUUsage (D:=Q) st cur) in
  (u == 100 * (1 - inject_Z (idle_delta (prev st) cur)
                    / inject_Z (total_delta (prev st) cur)))%Q /\
  (0 <= u <= 100)%Q /\
  (idle_delta (prev st) cur = total_delta (prev st) cur -> (u == 0)%Q) /\
  (idle_delta (prev st) cur = 0 -> (u == 100)%Q).
Proof.
  intros Hfr Hp Hf Ht u. subst u.
  rewrite (calculateCPUUsage_value st cur Hfr).
  destruct (follows_deltas _ _ Hp Hf) as (_ & _ & Hi).
  destruct (Z.eqb_spec (total_delta (prev st) cur) 0) as [E | _]; [lia|].
  split; [reflexivity|].
  split; [apply usage_range; lia|].
  split.
  - intros ->. apply usage_all_idle. exact Ht.
  - intros ->. apply usage_all_busy. exact Ht.
Qed.

Lemma cpu_usage_bounds_witness :
  let st := mk_cpu_state (mk_cpu_times 100 0 50 800 50 0 0) false in
  let cur := mk_cpu_times 130 0 60 900 60 0 0 in
  first_run st = false /\ cpu_valid (prev st) /\ follows (prev st) cur /\
  0 < total_delta (prev st) cur /\
  (0 <= snd (calculateCPUUsage (D:=Q) st cur) <= 100)%Q.
Proof.
  intros st cur.
  assert (Hp : cpu_valid (prev st)) by (subst st; cpu_side).
  assert (Hf : follows (prev st) cur).
  { subst st cur. repeat split; try cpu_side. }
  assert (Ht : 0 < total_delta (prev st) cur) by reflexivity.
  split; [reflexivity|]. split; [exact Hp|]. split; [exact Hf|].
  split; [exact Ht|].
  exact (proj1 (proj2 (cpu_usage_bounds st cur eq_refl Hp Hf Ht))).
Defined.

(** The same samples in binary64: an all-idle interval gives 0.0, an
    all-busy one 100.0, a mixed one 33.33333333333334 (exactly one third
    busy, rounded). *)
Example cpu_usage_binary64 :
  let st := mk_cpu_state (mk_cpu_times 100 0 50 800 50 0 0) false in
  snd (calculateCPUUsage (D:=PrimFloat.float) st (mk_cpu_times 100 0 50 900 50 0 0))
    = b64_of_Z 0 /\
  snd (calculateCPUUsage (D:=PrimFloat.float) st (mk_cpu_times 130 0 60 800 60 0 0))
    = b64_of_Z 100 /\
  PrimFloat.ltb (b64_of_Z 33)
    (snd (calculateCPUUsage (D:=PrimFloat.float) st (mk_cpu_times 130 0 60 900 60 0 0)))
    = true.
Proof.
  repeat split; vm_compute; reflexivity.
Qed.

(** ** Strings *)

Open Scope string_scope.

Lemma append_assoc (a b c : string) : (a ++ b) ++ c = a ++ (b ++ c).
Proof.
  induction a as [|x a IH]; simpl; [reflexivity | now rewrite IH].
Qed.

Lemma prefix_append (t s : string) :
  prefix t s = true <-> exists post, s = t ++ post.
Proof.
  revert t. induction s as [|b s IH]; intros t.
  - destruct t as [|a t]; simpl.
    + split; [exists EmptyString; reflexivity | reflexivity].
    + split; [discriminate|]. intros [post Hp]. discriminate.
  - destruct t as [|a t]; simpl.
    + split; [intros _; exists (String b s); reflexivity | reflexivity].
    + destruct (ascii_dec a b) as [-> | Hab]; simpl.
      * rewrite IH. split; intros [post Hp]; exists post; congruence.
      * split; [discriminate|]. intros [post Hp]. congruence.
Qed.

Lemma occurs_cons (t : string) (a : ascii) (s : string) :
  occurs t (String a s) <-> prefix t (String a s) = true \/ occurs t s.
Proof.
  split.
  - intros (pre & post & Hs). destruct pre as [|x pre].
    + left. apply prefix_append. exists post. exact Hs.
    + right. exists pre, post. simpl in Hs. congruence.
  - intros [Hp | (pre & post & Hs)].
    + apply prefix_append in Hp. destruct Hp as [post Hp]. exists EmptyString, post. exact Hp.
    + exists (String a pre), post. simpl. now rewrite Hs.
Qed.

(** [strstr] returns NULL exactly when the text does not occur. *)
Lemma strstr_None (s t : string) : strstr s t = None <-> ~ occurs t s.
Proof.
  induction s as [|a s IH].
  - destruct t as [|b t]; simpl.
    + split; [discriminate|]. intros Hn. exfalso. apply Hn. exists EmptyString, EmptyString. reflexivity.
    + split; [|reflexivity]. intros _ (pre & post & Hs).
      destruct pre; simpl in Hs; discriminate.
  - cbn [strstr]. rewrite occurs_cons.
    destruct (prefix t (String a s)).
    + split; [discriminate|]. intros Hn. exfalso. apply Hn. now left.
    + rewrite IH. split.
      * intros Hn [Hp | Ho]; [discriminate | contradiction].
      * intros Hn Ho. apply Hn. now right.
Qed.

(** When [strstr] finds the text, the result is a suffix that starts with it. *)
Lemma strstr_Some (s t r : string) :
  strstr s t = Some r -> prefix t r = true /\ exists pre, s = pre ++ r.
Proof.
  induction s as [|a s IH].
  - destruct t as [|b t]; simpl; [|discriminate].
    intros [= <-]. split; [reflexivity | exists EmptyString; reflexivity].
  - cbn [strstr]. destruct (prefix t (String a s)) eqn:Hp.
    + intros [= <-]. split; [exact Hp | exists EmptyString; reflexivity].
    + intros Hr. destruct (IH Hr) as (Hpr & pre & Hs).
      split; [exact Hpr|]. exists (String a pre). simpl. now rewrite Hs.
Qed.

Lemma take_append (n : nat) (s : string) : exists rest, s = take n s ++ rest.
Proof.
  revert s. induction n as [|n IH]; intros s.
  - exists s. reflexivity.
  - destruct s as [|c s]; [exists EmptyString; reflexivity|].
    destruct (IH s) as [rest Hr]. exists rest. simpl. now rewrite <- Hr.
Qed.

Lemma c_str_append (s : string) : exists rest, s = c_str s ++ rest.
Proof.
  induction s as [|c s [rest Hr]]; [exists EmptyString; reflexivity|].
  simpl. destruct (Ascii.eqb c Ascii.zero).
  - exists (String c s). reflexivity.
  - exists rest. simpl. now rewrite <- Hr.
Qed.

Lemma occurs_append (t a b : string) : occurs t a -> occurs t (a ++ b).
Proof.
  intros (pre & post & ->). exists pre, (post ++ b).
  now rewrite !append_assoc.
Qed.

(** A text absent from the file is absent from the buffer that is parsed. *)
Lemma absent_from_buffer (t bytes : string) (n : nat) :
  ~ occurs t bytes -> ~ occurs t (c_str (take n bytes)).
Proof.
  intros Hn Ho. apply Hn.
  destruct (take_append n bytes) as [r1 H1].
  destruct (c_str_append (take n bytes)) as [r2 H2].
  rewrite H1, H2. now apply occurs_append, occurs_append.
Qed.

Open Scope Z_scope.

(** ** Memory usage *)

Lemma parse_meminfo_no_total (buffer : string) :
  ~ occurs "MemTotal:" buffer -> fst (parse_meminfo buffer) = 0.
Proof.
  intros Hn. apply strstr_None in Hn. unfold parse_meminfo. now rewrite Hn.
Qed.

Lemma parse_meminfo_no_free (buffer : string) :
  ~ occurs "MemFree:" buffer -> snd (parse_meminfo buffer) = 0.
Proof.
  intros Hn. apply strstr_None in Hn. unfold parse_meminfo. now rewrite Hn.
Qed.

Lemma inject_Z_nonzero (z : Z) : z <> 0 -> ~ (inject_Z z == 0)%Q.
Proof.
  intros Hz Hq. apply Hz.
  assert (H : (inject_Z z == inject_Z 0)%Q) by exact Hq.
  now rewrite inject_Z_injective in H.
Qed.

Lemma memory_stats_percent_pos (memTotal_kB memFree_kB : Z) :
  0 < Z.quot memTotal_kB 1024 ->
  (usagePercent (memory_stats (D:=Q) memTotal_kB memFree_kB) ==
   100 * inject_Z (Z.quot memTotal_kB 1024 - Z.quot memFree_kB 1024)
   / inject_Z (Z.quot memTotal_kB 1024))%Q.
Proof.
  intros Hpos. unfold memory_stats. cbn [usagePercent].
  destruct (Z.gtb_spec (Z.quot memTotal_kB 1024) 0) as [_ | Hle]; [|lia].
  cbn [d_mul d_div d_of_Z Q_double]. field.
  apply inject_Z_nonzero. lia.
Qed.

Lemma memory_stats_percent_zero {D : Type} `{DoubleOps D} (memTotal_kB memFree_kB : Z) :
  Z.quot memTotal_kB 1024 <= 0 ->
  usagePercent (memory_stats memTotal_kB memFree_kB) = d_of_Z 0.
Proof.
  intros Hle. unfold memory_stats. cbn [usagePercent].
  destruct (Z.gtb_spec (Z.quot memTotal_kB 1024) 0) as [Hgt | _]; [lia|].
  reflexivity.
Qed.





Lemma absent_by_strstr (t s : string) : strstr s t = None -> ~ occurs t s.
Proof. apply strstr_None. Qed.

(** C8, as stated, fails: a blob that lacks [MemFree:] does not always
    give 100.0.  With a total below 1024 kB, or with [MemTotal:] missing
    as well, the total in MB is 0 and the guard [memTotal_MB > 0] leaves
    the percentage at 0.0. *)
Lemma missing_MemFree_zero_percent :
  ~ occurs "MemFree:" meminfo_small /\
  getMemoryUsage (D:=Q) (Content meminfo_small) = Some (mk_mem_report 0 0 0 0%Q) /\
  getMemoryUsage (D:=PrimFloat.float) (Content meminfo_small)
    = Some (mk_mem_report 0 0 0 (b64_of_Z 0)) /\
  ~ occurs "MemFree:" meminfo_other /\
  getMemoryUsage (D:=Q) (Content meminfo_other) = Some (mk_mem_report 0 0 0 0%Q) /\
  ~ (0 == 100)%Q /\ b64_of_Z 0 <> b64_of_Z 100.
Proof.
  split; [apply absent_by_strstr; reflexivity|].
  split; [reflexivity|].
  split; [vm_compute; reflexivity|].
  split; [apply absent_by_strstr; reflexivity|].
  split; [reflexivity|].
  split; [discriminate|].
  intros E. apply (f_equal (fun x => PrimFloat.eqb x (b64_of_Z 100))) in E.
  vm_compute in E. discriminate.
Qed.

(** C8 (amended).  For every memory-info text the call succeeds; a missing
    [MemTotal:] or [MemFree:] label gives the value 0 for that field.  A
    text lacking [MemFree:] yields free = 0 and used = total, with
    percentage 100.0 when the total in MB is positive and 0.0 when it is
    not. *)
Theorem missing_label_reads_zero (bytes : string) :
  exists r : mem_report Q,
    getMemoryUsage (D:=Q) (Content bytes) = Some r /\
    (~ occurs "MemTotal:" bytes ->
     fst (parse_meminfo (c_str (take 2047 bytes))) = 0 /\
     memTotal_MB r = 0 /\ usagePercent r = 0%Q) /\
    (~ occurs "MemFree:" bytes ->
     snd (parse_meminfo (c_str (take 2047 bytes))) = 0 /\
     memFree_MB r = 0 /\ memUsed_MB r = memTotal_MB r /\
     (0 < memTotal_MB r -> (usagePercent r == 100)%Q) /\
     (memTotal_MB r <= 0 -> usagePercent r = 0%Q)).
Proof.
  unfold getMemoryUsage.
  destruct (parse_meminfo (c_str (take 2047 bytes))) as [t f] eqn:Hp.
  exists (memory_stats t f). split; [reflexivity|].
  split.
  - intros Hn. apply (absent_from_buffer _ _ 2047%nat), parse_meminfo_no_total in Hn.
    rewrite Hp in Hn. simpl in Hn. subst t.
    split; [reflexivity|]. split; [reflexivity|].
    assert (H0 : Z.quot 0 1024 <= 0) by discriminate.
    exact (memory_stats_percent_zero (D:=Q) 0 f H0).
  - intros Hn. apply (absent_from_buffer _ _ 2047%nat), parse_meminfo_no_free in Hn.
    rewrite Hp in Hn. simpl in Hn. subst f.
    split; [reflexivity|]. split; [reflexivity|].
    split; [cbn [memory_stats memUsed_MB memTotal_MB]; apply Z.sub_0_r|].
    split; [|exact (memory_stats_percent_zero (D:=Q) t 0)].
    intros Hgt. cbn [memory_stats memTotal_MB] in Hgt.
    rewrite (memory_stats_percent_pos t 0 Hgt).
    change (Z.quot 0 1024) with 0. rewrite Z.sub_0_r. field.
    apply inject_Z_nonzero. lia.
Qed.

(** The text of the claim's example, with and without [MemFree:], in binary64. *)
Example missing_MemFree_binary64 :
  ~ occurs "MemFree:" meminfo_no_free /\
  getMemoryUsage (D:=PrimFloat.float) (Content meminfo_no_free)
    = Some (mk_mem_report 16384 16384 0 (b64_of_Z 100)) /\
  getMemoryUsage (D:=PrimFloat.float) OpenFails = None /\
  getMemoryUsage (D:=PrimFloat.float) ReadFails = None.
Proof.
  split; [apply absent_by_strstr; reflexivity|].
  split; [vm_compute; reflexivity|].
  split; reflexivity.
Qed.

(** ** Per-process stat record *)

Open Scope string_scope.

Lemma strrchr_None (s : string) (c : ascii) :
  strrchr s c = None <-> strchr s c = None.
Proof.
  induction s as [|a s IH]; simpl; [tauto|].
  destruct (strrchr s c) as [t|]; destruct (Ascii.eqb a c).
  - split; discriminate.
  - split; [discriminate|]. intros Hs. apply IH in Hs. discriminate.
  - split; discriminate.
  - split; [intros _; now apply IH | reflexivity].
Qed.

(** With a single occurrence, the first and the last are the same. *)
Lemma strrchr_single (s r : string) (c : ascii) :
  strchr s c = Some r -> strchr (advance 1 r) c = None -> strrchr s c = Some r.
Proof.
  induction s as [|a s IH]; simpl; [discriminate|].
  destruct (Ascii.eqb a c).
  - intros [= <-] Hn. simpl in Hn. apply strrchr_None in Hn. now rewrite Hn.
  - intros Hs Hn. now rewrite (IH Hs Hn).
Qed.

(** An increment over bytes of the string is the same in both models of
    [ptr += n]. *)
Lemma advance_inside (n : nat) (s behind : string) :
  (n <= String.length s)%nat -> advance_over n s behind = advance n s.
Proof.
  revert s. induction n as [|n IH]; intros s Hn; [now destruct s|].
  destruct s as [|c r]; cbn [String.length] in Hn; [lia|].
  cbn [advance_over advance]. apply IH. lia.
Qed.

Lemma strchr_length (s r : string) (c : ascii) :
  strchr s c = Some r -> (1 <= String.length r)%nat.
Proof.
  induction s as [|a s IH]; simpl; [discriminate|].
  destruct (Ascii.eqb a c); [intros [= <-]; simpl; lia | exact IH].
Qed.

Lemma prefix_length (t s : string) :
  prefix t s = true -> (String.length t <= String.length s)%nat.
Proof.
  revert s. induction t as [|a t IH]; intros s; [simpl; lia|].
  destruct s as [|b s]; simpl; [discriminate|].
  destruct (Ascii.ascii_dec a b); [|discriminate].
  intros Hp. apply IH in Hp. lia.
Qed.

Lemma strstr_length (s t r : string) :
  strstr s t = Some r -> (String.length t <= String.length r)%nat.
Proof.
  induction s as [|a s IH]; cbn [strstr].
  - destruct (prefix t EmptyString) eqn:Hp; intros Hs; [|discriminate Hs].
    injection Hs as <-. now apply prefix_length.
  - destruct (prefix t (String a s)) eqn:Hp; [|exact IH].
    intros Hs. injection Hs as <-. now apply prefix_length.
Qed.

(** The increments of [parse_meminfo], [parseCPUStats] and the field loop
    step over the bytes that [strstr] or [strchr] has just found. *)
Lemma advance_after_strstr (s t r behind : string) :
  strstr s t = Some r ->
  advance_over (String.length t) r behind = advance (String.length t) r.
Proof. intros Hs. apply advance_inside. now apply strstr_length in Hs. Qed.

Lemma advance_after_strchr (s r behind : string) (c : ascii) :
  strchr s c = Some r -> advance_over 1 r behind = advance 1 r.
Proof. intros Hs. apply advance_inside. now apply strchr_length in Hs. Qed.

(** The increment [ptr += 2] of [readProcessStat]: inside the record when
    a byte follows the parenthesis, on the bytes behind the terminator when
    the parenthesis is the last byte. *)
Lemma advance_over_paren (c : ascii) (behind : string) :
  advance_over 2 (String c EmptyString) behind = c_str behind.
Proof. reflexivity. Qed.

(** On a line with one closing parenthesis and a byte after it the
    source's parser is the specification's. *)
Lemma parse_stat_single_paren (buffer r behind : string) :
  strchr buffer ")" = Some r -> strchr (advance 1 r) ")" = None ->
  (2 <= String.length r)%nat ->
  parse_stat buffer behind = spec_parse_stat buffer.
Proof.
  intros Hs Hn Hl. unfold parse_stat, parse_fields, spec_parse_stat.
  now rewrite Hs, (strrchr_single _ _ _ Hs Hn), advance_inside.
Qed.

Lemma strchr_append (a b : string) (c : ascii) :
  strchr a c = None -> strchr (a ++ b) c = strchr b c.
Proof.
  induction a as [|x a IH]; simpl; [reflexivity|].
  destruct (Ascii.eqb x c); [discriminate | exact IH].
Qed.

Lemma scan_digits_step (c : ascii) (r : string) (acc : Z) :
  scan_digits (String c r) acc =
  if isdigit c then
    let '(k, v, t) := scan_digits r (10 * acc + digit_val c) in (S k, v, t)
  else (O, acc, String c r).
Proof. reflexivity. Qed.

Lemma scan_digits_stop (rest : string) (acc : Z) :
  starts_with_digit rest = false -> scan_digits rest acc = (O, acc, rest).
Proof.
  destruct rest as [|c r]; [reflexivity|].
  simpl. intros ->. reflexivity.
Qed.

(** [scan_digits] reads a printed sequence of digits back. *)
Lemma scan_digits_uint (d : Decimal.uint) (rest : string) :
  starts_with_digit rest = false ->
  forall acc,
    scan_digits (DecimalString.NilEmpty.string_of_uint d ++ rest) acc
    = (Decimal.nb_digits d, uint_value d acc, rest).
Proof.
  intros Hrest.
  induction d as [|d IH|d IH|d IH|d IH|d IH|d IH|d IH|d IH|d IH|d IH]; intros acc;
    cbn [DecimalString.NilEmpty.string_of_uint append Decimal.nb_digits uint_value];
    [now apply scan_digits_stop|..];
    rewrite scan_digits_step;
    cbv [isdigit N_of_ascii N_of_digits N.leb N.compare Pos.compare Pos.compare_cont
         N.add N.mul Pos.add Pos.mul andb];
    cbv [digit_val N_of_ascii N_of_digits N.add N.mul Pos.add Pos.mul Z.of_N Z.sub
         Z.add Z.opp Z.pos_sub Pos.pred_double Z.double Z.succ_double Z.pred_double];
    rewrite IH; reflexivity.
Qed.

Lemma uint_value_pos (l : Decimal.uint) :
  forall p, uint_value l (Z.pos p) = Z.pos (Pos.of_uint_acc l p).
Proof.
  induction l as [|l IH|l IH|l IH|l IH|l IH|l IH|l IH|l IH|l IH|l IH]; intros p;
    cbn [uint_value Pos.of_uint_acc]; [reflexivity|..];
    rewrite <- IH; f_equal; lia.
Qed.

Lemma uint_value_0 (l : Decimal.uint) : uint_value l 0 = Z.of_N (Pos.of_uint l).
Proof.
  induction l as [|l IH|l IH|l IH|l IH|l IH|l IH|l IH|l IH|l IH|l IH];
    cbn [uint_value Pos.of_uint]; [reflexivity | exact IH |..];
    cbn [Z.mul Z.add Z.of_N]; apply uint_value_pos.
Qed.

Lemma numeral_value (n : N) : uint_value (N.to_uint n) 0 = Z.of_N n.
Proof.
  rewrite uint_value_0. change (Pos.of_uint (N.to_uint n)) with (N.of_uint (N.to_uint n)).
  now rewrite DecimalN.Unsigned.of_to.
Qed.

Lemma numeral_nonnil (n : N) : N.to_uint n <> Decimal.Nil.
Proof.
  destruct n as [|p]; [discriminate|]. apply DecimalPos.Unsigned.to_uint_nonnil.
Qed.

(** A numeral starts with a digit: no white space and no sign is skipped. *)
Lemma numeral_head (n : N) (rest : string) :
  scan_sign (skip_space (numeral n ++ rest)) = (false, numeral n ++ rest).
Proof.
  unfold numeral. pose proof (numeral_nonnil n) as Hn.
  destruct (N.to_uint n); [contradiction|..]; reflexivity.
Qed.

Lemma skip_space_numeral (n : N) (rest : string) :
  skip_space (numeral n ++ rest) = numeral n ++ rest.
Proof.
  unfold numeral. pose proof (numeral_nonnil n) as Hn.
  destruct (N.to_uint n); [contradiction|..]; reflexivity.
Qed.

(** One [%lu] conversion on a printed number gives the number back. *)
Lemma scan_ulong_numeral (n : N) (rest : string) :
  starts_with_digit rest = false -> Z.of_N n <= ULONG_MAX ->
  scan_ulong (numeral n ++ rest) = Some (Z.of_N n, rest).
Proof.
  intros Hrest Hn. unfold scan_ulong. rewrite numeral_head.
  unfold numeral. rewrite (scan_digits_uint _ _ Hrest), numeral_value.
  destruct (Decimal.nb_digits (N.to_uint n)) eqn:Hk.
  - exfalso. apply (numeral_nonnil n). now destruct (N.to_uint n).
  - destruct (Z.gtb_spec (Z.of_N n) ULONG_MAX); [lia | reflexivity].
Qed.

Lemma sscanf_two_numerals (u s : N) (rest : string) :
  starts_with_digit rest = false ->
  Z.of_N u <= ULONG_MAX -> Z.of_N s <= ULONG_MAX ->
  sscanf_lu_lu (numeral u ++ " " ++ numeral s ++ rest) = (2%nat, Z.of_N u, Z.of_N s).
Proof.
  intros Hrest Hu Hs. unfold sscanf_lu_lu.
  rewrite scan_ulong_numeral by (assumption || reflexivity).
  change (skip_space (" " ++ numeral s ++ rest)) with (skip_space (numeral s ++ rest)).
  rewrite skip_space_numeral, scan_ulong_numeral by assumption.
  reflexivity.
Qed.

Lemma concat_cons (x y : string) (l : list string) :
  String.concat " " (x :: y :: l) = x ++ " " ++ String.concat " " (y :: l).
Proof. reflexivity. Qed.

(** The field loop steps over [fields] when none of them holds a space. *)
Lemma skip_fields_concat (fields : list string) :
  Forall (fun f => strchr f " " = None) fields ->
  forall r rest,
    skip_fields (List.length fields) (String.concat " " (fields ++ r :: rest))
    = Some (String.concat " " (r :: rest)).
Proof.
  induction 1 as [|f fs Hf Hfs IH]; intros r rest; [reflexivity|].
  cbn [List.length skip_fields].
  assert (Hc : String.concat " " ((f :: fs) ++ r :: rest)
               = f ++ " " ++ String.concat " " (fs ++ r :: rest)).
  { destruct fs; reflexivity. }
  rewrite Hc, (strchr_append _ _ _ Hf).
  change (strchr (" " ++ String.concat " " (fs ++ r :: rest)) " ")
    with (Some (" " ++ String.concat " " (fs ++ r :: rest))).
  cbn [advance append]. apply IH.
Qed.

(** On the stat line of a process whose name holds no closing
    parenthesis, [parse_stat] returns fields 14 and 15. *)
Lemma parse_stat_plain (pid comm : string) (fields more : list string) (u s : N) :
  strchr pid ")" = None -> strchr comm ")" = None ->
  List.length fields = 11%nat ->
  Forall (fun f => strchr f " " = None) fields ->
  Z.of_N u <= ULONG_MAX -> Z.of_N s <= ULONG_MAX ->
  forall behind,
    parse_stat (stat_line pid comm (fields ++ numeral u :: numeral s :: more)) behind
    = Some (Z.of_N u, Z.of_N s).
Proof.
  intros Hpid Hcomm Hlen Hfields Hu Hs behind. unfold parse_stat, parse_fields, stat_line.
  rewrite (strchr_append _ _ _ Hpid).
  change (strchr (" (" ++ comm ++ ") " ++ ?x) ")")
    with (strchr (comm ++ ") " ++ x) ")").
  rewrite (strchr_append _ _ _ Hcomm).
  cbn [append strchr Ascii.eqb Bool.eqb advance_over]. rewrite <- Hlen.
  rewrite (skip_fields_concat _ Hfields), concat_cons.
  assert (Htail : exists rest, String.concat " " (numeral s :: more) = numeral s ++ rest
                               /\ starts_with_digit rest = false).
  { destruct more as [|m more].
    - exists EmptyString. split; [|reflexivity].
      cbn [String.concat]. induction (numeral s); simpl; congruence.
    - exists (" " ++ String.concat " " (m :: more)). split; reflexivity. }
  destruct Htail as (rest & -> & Hrest).
  now rewrite sscanf_two_numerals.
Qed.

Lemma strchr_append_found (a b r : string) (c : ascii) :
  strchr a c = Some r -> strchr (a ++ b) c = Some (r ++ b).
Proof.
  induction a as [|x a IH]; simpl; [discriminate|].
  destruct (Ascii.eqb x c); [intros [= <-]; reflexivity | exact IH].
Qed.

(** Whenever the name holds a closing parenthesis, the anchor of
    [parse_stat] is that parenthesis, inside the name. *)
Lemma parse_stat_anchor_in_name (pid comm r : string) (fields : list string) :
  strchr pid ")" = None -> strchr comm ")" = Some r ->
  strchr (stat_line pid comm fields) ")"
  = Some (r ++ ") " ++ String.concat " " fields).
Proof.
  intros Hpid Hcomm. unfold stat_line.
  rewrite (strchr_append _ _ _ Hpid).
  change (strchr (" (" ++ comm ++ ") " ++ ?x) ")")
    with (strchr (comm ++ ") " ++ x) ")").
  now apply strchr_append_found.
Qed.

(** C1 (the code departs from the claim).  The claim: on a stat line whose
    name contains a closing parenthesis the parser anchors on the last one
    and so extracts utime (field 14) and stime (field 15).
    [readProcessStat] calls [strchr], which finds the first: on the line
    of [my (weird) proc] it resumes inside the name, counts [proc)] as a
    field and returns cmajflt and utime, (0, 111), where fields 14 and 15
    are 111 and 222, which the parser anchored on the last parenthesis
    returns. *)
Theorem parse_stat_anchors_on_first_paren (stale : string) :
  nth 11 weird_fields EmptyString = "111" /\
  nth 12 weird_fields EmptyString = "222" /\
  strchr weird_stat ")" = Some (") proc) " ++ String.concat " " weird_fields) /\
  strrchr weird_stat ")" = Some (") " ++ String.concat " " weird_fields) /\
  parse_stat weird_stat stale = Some (0, 111) /\
  readProcessStat (Content weird_stat) stale = Some (0, 111) /\
  spec_parse_stat weird_stat = Some (111, 222).
Proof.
  repeat split; vm_compute; reflexivity.
Qed.

(** The same process under the name [bash]: both parsers return (111, 222). *)
Example parse_stat_plain_name (stale : string) :
  parse_stat (stat_line "1234" "bash" weird_fields) stale = Some (111, 222) /\
  spec_parse_stat (stat_line "1234" "bash" weird_fields) = Some (111, 222) /\
  parse_stat (stat_line "1234" "Web Content" weird_fields) stale = Some (111, 222) /\
  parse_stat (stat_line "1234" "(sd-pam" weird_fields) stale = Some (111, 222).
Proof.
  repeat split; vm_compute; reflexivity.
Qed.

Open Scope Z_scope.

(** ** Process census: the directory scan *)

Section Scan.
Context {D : Type}.
Variable fs : procfs.

Lemma all_records_app (l1 l2 : list string) :
  all_records (D:=D) fs (l1 ++ l2) = (all_records fs l1 ++ all_records fs l2)%list.
Proof. apply flat_map_app. Qed.

Lemma firstn_exact (acc more : list (ProcessInfo D)) :
  firstn (List.length acc) (acc ++ more) = acc.
Proof.
  rewrite firstn_app, Nat.sub_diag, firstn_all. cbn [firstn]. apply app_nil_r.
Qed.

(** The loop stores the records of the entries in order and stops at
    1024 of them. *)
Lemma scan_entries_firstn (entries : list string) :
  forall processes : list (ProcessInfo D),
    (List.length processes <= 1024)%nat ->
    scan_entries fs entries processes
    = firstn 1024 (processes ++ all_records fs entries).
Proof.
  induction entries as [|e rest IH]; intros processes Hlen.
  - cbn [scan_entries all_records flat_map]. rewrite app_nil_r.
    symmetry. apply firstn_all2. exact Hlen.
  - cbn [scan_entries].
    destruct (Z.ltb_spec (Z.of_nat (List.length processes)) 1024) as [Hlt | Hge].
    + unfold all_records. cbn [flat_map]. fold (all_records (D:=D) fs rest).
      destruct (read_process fs e) as [p|].
      * rewrite IH by (rewrite length_app; cbn [List.length]; lia).
        now rewrite <- app_assoc.
      * apply IH. exact Hlen.
    + assert (Hl : List.length processes = 1024%nat) by lia.
      rewrite <- Hl at 1. symmetry. apply firstn_exact.
Qed.

Lemma scan_entries_all (entries : list string) :
  scan_entries fs entries [] = firstn 1024 (all_records (D:=D) fs entries).
Proof.
  rewrite scan_entries_firstn by (cbn [List.length]; lia). reflexivity.
Qed.

(** What [readProcessStat] has in its array after the terminator is
    stored: the record up to its first NUL, and behind it the stale bytes. *)
Lemma c_str_memory (data stale : string) :
  c_str (data ++ String Ascii.zero stale) = c_str data.
Proof.
  induction data as [|c data IH]; [reflexivity|].
  cbn [append c_str]. destruct (Ascii.eqb c Ascii.zero); [reflexivity | now rewrite IH].
Qed.

Lemma after_nul_memory (data stale : string) :
  strchr data Ascii.zero = None ->
  after_nul (data ++ String Ascii.zero stale) = stale.
Proof.
  induction data as [|c data IH]; [reflexivity|].
  cbn [append after_nul strchr]. destruct (Ascii.eqb c Ascii.zero); [discriminate | exact IH].
Qed.





End Scan.

(** ** Process census: sorting and ranking *)

Lemma compareProcesses_le {D : Type} (a b : ProcessInfo D) :
  compareProcesses a b <= 0 <-> total_time b <= total_time a.
Proof.
  unfold compareProcesses.
  destruct (Z.gtb_spec (total_time b) (total_time a));
    destruct (Z.ltb_spec (total_time b) (total_time a)); lia.
Qed.

Lemma insert_desc_perm {D : Type} (p : ProcessInfo D) (l : list (ProcessInfo D)) :
  Permutation (p :: l) (insert_desc p l).
Proof.
  induction l as [|q r IH]; simpl; [reflexivity|].
  destruct (compareProcesses p q <=? 0); [reflexivity|].
  rewrite perm_swap. now constructor.
Qed.

Lemma insert_desc_sorted {D : Type} (p : ProcessInfo D) (l : list (ProcessInfo D)) :
  Sorted (fun a b => compareProcesses a b <= 0) l ->
  Sorted (fun a b => compareProcesses a b <= 0) (insert_desc p l).
Proof.
  induction l as [|q r IH]; intros Hs; simpl.
  - repeat constructor.
  - destruct (Z.leb_spec (compareProcesses p q) 0) as [Hle | Hgt].
    + constructor; [exact Hs | constructor; exact Hle].
    + apply Sorted_inv in Hs. destruct Hs as [Hr Hhd].
      constructor; [now apply IH|].
      assert (Hqp : compareProcesses q p <= 0).
      { apply compareProcesses_le.
        assert (~ total_time q <= total_time p) by (rewrite <- compareProcesses_le; lia).
        lia. }
      destruct r as [|x r]; simpl.
      * constructor. exact Hqp.
      * destruct (compareProcesses p x <=? 0); constructor;
          [exact Hqp | now apply HdRel_inv in Hhd].
  Qed.

Lemma sort_desc_contract (D : Type) :
  qsort_contract (@compareProcesses D) (sort_desc D).
Proof.
  intros l. induction l as [|p r [IHp IHs]]; simpl.
  - split; constructor.
  - split.
    + rewrite <- insert_desc_perm. now constructor.
    + now apply insert_desc_sorted.
Qed.

Lemma descending_unique (l1 : list Z) :
  forall l2, descending l1 -> descending l2 -> Permutation l1 l2 -> l1 = l2.
Proof.
  unfold descending.
  induction l1 as [|a l1 IH]; intros l2 H1 H2 Hp.
  - apply Permutation_nil in Hp. now subst.
  - destruct l2 as [|b l2].
    + symmetry in Hp. apply Permutation_nil in Hp. discriminate.
    + apply StronglySorted_inv in H1. destruct H1 as [H1 Ha].
      apply StronglySorted_inv in H2. destruct H2 as [H2 Hb].
      rewrite Forall_forall in Ha, Hb.
      assert (Hab : a = b).
      { assert (Hin1 : In a (b :: l2)) by (eapply Permutation_in; [exact Hp | now left]).
        assert (Hin2 : In b (a :: l1))
          by (eapply Permutation_in; [symmetry; exact Hp | now left]).
        destruct Hin1 as [-> | Hin1]; [reflexivity|].
        destruct Hin2 as [-> | Hin2]; [reflexivity|].
        specialize (Ha _ Hin2). specialize (Hb _ Hin1). lia. }
      subst b. f_equal. apply IH; try assumption.
      now apply Permutation_cons_inv in Hp.
Qed.

Section Ranking.
Context {D : Type} `{DoubleOps D}.
Variable sort : list (ProcessInfo D) -> list (ProcessInfo D).
Hypothesis sort_ok : qsort_contract (@compareProcesses D) sort.

Lemma sort_perm (l : list (ProcessInfo D)) : Permutation l (sort l).
Proof. apply sort_ok. Qed.

Lemma sort_descending (l : list (ProcessInfo D)) :
  descending (map total_time (sort l)).
Proof.
  destruct (sort_ok l) as [_ Hs].
  apply Sorted_StronglySorted in Hs.
  - unfold descending. induction Hs as [|a r Hr IH Ha]; simpl; constructor.
    + exact IH.
    + rewrite Forall_map. revert Ha. apply Forall_impl.
      intros b. apply compareProcesses_le.
  - intros a b c Hab Hbc. rewrite compareProcesses_le in *. lia.
Qed.

(** The totals after sorting do not depend on which sort is used. *)
Lemma sort_totals (l : list (ProcessInfo D)) :
  map total_time (sort l) = map total_time (sort_desc D l).
Proof.
  apply descending_unique.
  - apply sort_descending.
  - unfold descending. destruct (sort_desc_contract D l) as [_ Hs].
    apply Sorted_StronglySorted in Hs.
    + induction Hs as [|a r Hr IH Ha]; simpl; constructor.
      * exact IH.
      * rewrite Forall_map. revert Ha. apply Forall_impl.
        intros b. apply compareProcesses_le.
    + intros a b c Hab Hbc. rewrite compareProcesses_le in *. lia.
  - apply Permutation_map. rewrite <- sort_perm.
    apply (sort_desc_contract D l).
Qed.

(** The first record after sorting has the largest total. *)
Lemma sort_head_max (l : list (ProcessInfo D)) (top : ProcessInfo D)
  (rest : list (ProcessInfo D)) :
  sort l = top :: rest ->
  forall p, In p l -> total_time p <= total_time top.
Proof.
  intros Hs p Hin.
  pose proof (sort_descending l) as Hd. rewrite Hs in Hd.
  unfold descending in Hd. simpl in Hd.
  apply StronglySorted_inv in Hd. destruct Hd as [_ Hall].
  assert (Hin' : In p (top :: rest)).
  { rewrite <- Hs. eapply Permutation_in; [apply sort_perm | exact Hin]. }
  destruct Hin' as [-> | Hin']; [lia|].
  rewrite Forall_forall in Hall. apply Hall. now apply in_map.
Qed.

Lemma sort_nonempty (l : list (ProcessInfo D)) :
  l <> [] -> exists top rest, sort l = top :: rest.
Proof.
  intros Hne. destruct (sort l) as [|top rest] eqn:Hs.
  - exfalso. apply Hne. apply Permutation_nil. symmetry.
    rewrite <- Hs. apply sort_perm.
  - now exists top, rest.
Qed.

(** With a positive largest total the percentage loop runs over the
    whole array. *)
Lemma rank_processes_positive (l : list (ProcessInfo D)) (top : ProcessInfo D)
  (rest : list (ProcessInfo D)) :
  sort l = top :: rest -> 0 < total_time top ->
  rank_processes sort l = map (relative_percent (total_time top)) (sort l).
Proof.
  intros Hs Hpos. unfold rank_processes, set_percentages. rewrite Hs.
  destruct (Z.gtb_spec (total_time top) 0); [reflexivity | lia].
Qed.

(** With largest total 0 the loop is skipped: no field is assigned. *)
Lemma rank_processes_zero (l : list (ProcessInfo D)) (top : ProcessInfo D)
  (rest : list (ProcessInfo D)) :
  sort l = top :: rest -> total_time top <= 0 ->
  rank_processes sort l = sort l.
Proof.
  intros Hs Hz. unfold rank_processes, set_percentages. rewrite Hs.
  destruct (Z.gtb_spec (total_time top) 0); [lia | reflexivity].
Qed.

Lemma rank_processes_totals (l : list (ProcessInfo D)) :
  map total_time (rank_processes sort l) = map total_time (sort l).
Proof.
  unfold rank_processes, set_percentages.
  destruct (sort l) as [|top rest]; [reflexivity|].
  destruct (total_time top >? 0); [|reflexivity].
  rewrite map_map. reflexivity.
Qed.

Lemma rank_processes_length (l : list (ProcessInfo D)) :
  List.length (rank_processes sort l) = List.length l.
Proof.
  rewrite <- (length_map total_time), rank_processes_totals, length_map.
  symmetry. apply Permutation_length, sort_perm.
Qed.
End Ranking.

Section RankingValues.
Context {D : Type} `{DoubleOps D}.
Variable sort : list (ProcessInfo D) -> list (ProcessInfo D).
Hypothesis sort_ok : qsort_contract (@compareProcesses D) sort.

(** The percentages assigned, as a function of the sorted totals. *)
Lemma rank_processes_percents (l : list (ProcessInfo D)) (m : Z) (ts : list Z) :
  map total_time (sort l) = m :: ts -> 0 < m ->
  map cpu_percent (rank_processes sort l)
  = map (fun t => Some (d_div (d_mul (d_of_Z 100) (d_of_Z t)) (d_of_Z m))) (m :: ts).
Proof.
  intros Hts Hm.
  destruct (sort l) as [|top rest] eqn:Hs; [discriminate|].
  assert (Htop : total_time top = m) by (simpl in Hts; congruence).
  rewrite (rank_processes_positive sort l top rest Hs) by lia.
  rewrite Hs, <- Hts, Htop, !map_map. reflexivity.
Qed.
End RankingValues.

Lemma sort_singleton {D : Type} (sort : list (ProcessInfo D) -> list (ProcessInfo D))
  (p : ProcessInfo D) :
  qsort_contract (@compareProcesses D) sort -> sort [p] = [p].
Proof.
  intros Hs. destruct (Hs [p]) as [Hp _].
  now apply Permutation_length_1_inv in Hp.
Qed.

(** C2, as stated, fails.  When the largest total is 0 the guard
    [max_time > 0] skips the percentage loop: the only record of a census
    of one idle process is ranked first and is assigned no percentage at
    all, whichever way [qsort] orders equal records.  In binary64 the
    first record's percentage is not always 100.0 either: for the total
    4245976521163064 the product 100.0 * total rounds, and the quotient is
    the double just above 100. *)
Lemma idle_census_has_no_percentage :
  (forall sort, qsort_contract (@compareProcesses Q) sort ->
     rank_processes sort [idle_process Q] = [idle_process Q]) /\
  cpu_percent (idle_process Q) = None /\
  (forall sort, qsort_contract (@compareProcesses PrimFloat.float) sort ->
     exists x, map cpu_percent (rank_processes sort [busy_process PrimFloat.float]) = [Some x]
               /\ PrimFloat.ltb (b64_of_Z 100) x = true).
Proof.
  split.
  { intros sort Hs. unfold rank_processes. rewrite (sort_singleton sort _ Hs). reflexivity. }
  split; [reflexivity|].
  intros sort Hs. unfold rank_processes. rewrite (sort_singleton sort _ Hs).
  eexists. split; vm_compute; reflexivity.
Qed.

(** C2 (amended).  For every non-empty census whose largest total is
    positive and every [qsort] that meets its contract: the ranked array
    is the census sorted by descending total, every record is assigned a
    percentage whose exact value is 100 * total_time / top.total_time, and
    that of the first record is 100.  The records with totals 30, 0, 50,
    10, 50 are ranked 50, 50, 30, 10, 0 with percentages 100, 100, 60, 20,
    0, which binary64 gives exactly. *)
Theorem rank_processes_relative
  (sort : forall D : Type, list (ProcessInfo D) -> list (ProcessInfo D))
  (processes : list (ProcessInfo Q)) :
  (forall D : Type, qsort_contract (@compareProcesses D) (sort D)) ->
  Exists (fun p => 0 < total_time p) processes ->
  (exists top rest,
     rank_processes (sort Q) processes = top :: rest /\
     Permutation (map (relative_percent (total_time top)) processes) (top :: rest) /\
     descending (map total_time (top :: rest)) /\
     Forall (fun p => exists q, cpu_percent p = Some q /\
               (q == 100 * inject_Z (total_time p) / inject_Z (total_time top))%Q)
            (top :: rest) /\
     exists q, cpu_percent top = Some q /\ (q == 100)%Q) /\
  map total_time (rank_processes (sort Q) (ranking_example Q)) = [50; 50; 30; 10; 0] /\
  map (fun p => option_map Qred (cpu_percent p))
      (rank_processes (sort Q) (ranking_example Q))
    = [Some 100%Q; Some 100%Q; Some 60%Q; Some 20%Q; Some 0%Q] /\
  map cpu_percent (rank_processes (sort PrimFloat.float) (ranking_example PrimFloat.float))
    = map (fun z => Some (b64_of_Z z)) [100; 100; 60; 20; 0].
Proof.
  intros Hsort Hex.
  split.
  { assert (Hne : processes <> []) by (intros ->; inversion Hex).
    destruct (sort_nonempty (sort Q) (Hsort Q) processes Hne) as (top & rest & Hs).
    assert (Hpos : 0 < total_time top).
    { apply Exists_exists in Hex. destruct Hex as (p & Hin & Hp).
      pose proof (sort_head_max (sort Q) (Hsort Q) processes top rest Hs p Hin). lia. }
    pose proof (rank_processes_positive (sort Q) processes top rest Hs Hpos) as Hr.
    pose proof (rank_processes_totals (sort Q) processes) as Ht.
    rewrite Hs in Hr. cbn [map] in Hr.
    exists (relative_percent (total_time top) top),
           (map (relative_percent (total_time top)) rest).
    split; [exact Hr|].
    split.
    { change (Permutation (map (relative_percent (total_time top)) processes)
                (map (relative_percent (total_time top)) (top :: rest))).
      rewrite <- Hs. apply Permutation_map, sort_perm, Hsort. }
    rewrite <- Hr, Ht.
    split; [apply sort_descending, Hsort|].
    rewrite Hr.
    assert (Hq : forall p : ProcessInfo Q,
               exists q, cpu_percent (relative_percent (total_time top) p) = Some q /\
                 (q == 100 * inject_Z (total_time (relative_percent (total_time top) p))
                       / inject_Z (total_time top))%Q).
    { intros p. eexists. split; [reflexivity|]. simpl. reflexivity. }
    split.
    - constructor; [apply Hq|]. apply Forall_map, Forall_forall. intros p _. apply Hq.
    - eexists. split; [reflexivity|]. simpl. field.
      apply inject_Z_nonzero. lia. }
  assert (Htot : forall D (Hd : DoubleOps D),
             map total_time (sort D (ranking_example D)) = [50; 50; 30; 10; 0]).
  { intros D Hd. rewrite (sort_totals (sort D) (Hsort D)). reflexivity. }
  split.
  { rewrite rank_processes_totals. apply (Htot Q Q_double). }
  split.
  { rewrite <- (map_map cpu_percent (option_map Qred)).
    rewrite (rank_processes_percents (sort Q) (ranking_example Q) 50 [50; 30; 10; 0]
               (Htot Q Q_double)) by lia.
    reflexivity. }
  rewrite (rank_processes_percents (sort PrimFloat.float) (ranking_example PrimFloat.float)
             50 [50; 30; 10; 0] (Htot _ b64_double)) by lia.
  vm_compute. reflexivity.
Qed.

Lemma rank_processes_relative_witness :
  (forall D : Type, qsort_contract (@compareProcesses D) (sort_desc D)) /\
  Exists (fun p => 0 < total_time p) (ranking_example Q) /\
  map total_time (rank_processes (sort_desc Q) (ranking_example Q)) = [50; 50; 30; 10; 0] /\
  map (fun p => option_map Qred (cpu_percent p))
      (rank_processes (sort_desc Q) (ranking_example Q))
    = [Some 100%Q; Some 100%Q; Some 60%Q; Some 20%Q; Some 0%Q].
Proof.
  assert (Hex : Exists (fun p : ProcessInfo Q => 0 < total_time p) (ranking_example Q)).
  { apply Exists_cons_hd. simpl. lia. }
  split; [exact sort_desc_contract|]. split; [exact Hex|].
  pose proof (rank_processes_relative sort_desc (ranking_example Q)
                sort_desc_contract Hex) as (_ & Ht & Hp & _).
  split; [exact Ht | exact Hp].
Defined.

(** ** Process census: failure policy and capacity *)

(** C9 (the code departs from the claim).  The claim: a process whose
    stat record is malformed is excluded from the census.  A record that
    ends at the closing parenthesis of the name is malformed, fields 3 to
    15 are missing, but [readProcessStat] does not fail on it: [ptr += 2]
    steps over the terminator, and the field loop and [sscanf] run on the
    bytes the array holds behind it.  In [cut_fs] these are the bytes left
    by the record of process 1, so process 2 is listed, with the counters
    40 and 10 of process 1.  With one more byte, the blank after the
    parenthesis, the same record is rejected. *)
Theorem record_cut_at_paren_is_listed :
  stat_file cut_fs 2 = Content "2 (bash)" /\
  stale_bytes cut_fs 2 = "S 1 1 1 0 -1 4194560 120 0 3 0 40 10 0 0 20 0 1 0 100 0 0"%string /\
  (forall stale,
     readProcessStat (Content "2 (bash)") stale = parse_fields (c_str stale)) /\
  readProcessStat (stat_file cut_fs 2) (stale_bytes cut_fs 2) = Some (40, 10) /\
  (forall stale, readProcessStat (Content "2 (bash) ") stale = None) /\
  read_process (D:=PrimFloat.float) cut_fs "2"
  = Some (mk_ProcessInfo 2 "bash" 40 10 50 None) /\
  listTopProcesses (sort_desc PrimFloat.float) cut_fs
  = TopProcesses
      [ mk_ProcessInfo 1 "init" 40 10 50 (Some (b64_of_Z 100));
        mk_ProcessInfo 2 "bash" 40 10 50 (Some (b64_of_Z 100)) ].
Proof.
  split; [reflexivity|]. split; [reflexivity|].
  split; [intros stale; reflexivity|].
  split; [vm_compute; reflexivity|].
  split; [intros stale; reflexivity|].
  split; vm_compute; reflexivity.
Qed.

(** C10.  One census pass stores at most 1024 records: the result is the
    first 1024 records of the entries in directory order, entries that
    follow once 1024 are stored do not change it, and a table of 1500
    readable processes yields exactly 1024 records. *)
Theorem census_capacity (D : Type) (fs : procfs) (entries : list string) :
  (List.length (scan_entries (D:=D) fs entries []) <= 1024)%nat /\
  scan_entries (D:=D) fs entries [] = firstn 1024 (all_records fs entries) /\
  (forall more,
     (1024 <= List.length (all_records (D:=D) fs entries))%nat ->
     scan_entries (D:=D) fs (entries ++ more) [] = scan_entries fs entries []) /\
  (List.length (all_records (D:=Q) crowded_fs (map decimal (seq 1 1500))) = 1500)%nat /\
  (List.length (scan_entries (D:=Q) crowded_fs (map decimal (seq 1 1500)) []) = 1024)%nat.
Proof.
  split.
  { rewrite scan_entries_all. apply firstn_le_length. }
  split; [apply scan_entries_all|].
  split.
  { intros more Hlen. rewrite !scan_entries_all, all_records_app, firstn_app.
    replace (1024 - List.length (all_records fs entries))%nat with 0%nat by lia.
    cbn [firstn]. apply app_nil_r. }
  split; vm_compute; reflexivity.
Qed.

(** * Further properties *)

(** ** Reading and parsing [/proc/stat] *)

Lemma isdigit_val (c : ascii) : isdigit c = true -> 0 <= digit_val c <= 9.
Proof.
  unfold isdigit, digit_val. intros Hd. apply andb_true_iff in Hd.
  destruct Hd as [H1 H2]. apply N.leb_le in H1, H2. lia.
Qed.

Lemma scan_digits_nonneg (s : string) :
  forall acc, 0 <= acc -> 0 <= snd (fst (scan_digits s acc)).
Proof.
  induction s as [|c r IH]; intros acc Hacc; [exact Hacc|].
  rewrite scan_digits_step. destruct (isdigit c) eqn:Hd; [|exact Hacc].
  pose proof (isdigit_val c Hd) as Hv.
  specialize (IH (10 * acc + digit_val c) ltac:(lia)).
  destruct (scan_digits r (10 * acc + digit_val c)) as [[k v] t]. exact IH.
Qed.

Lemma wrap64_range (z : Z) : is_u64 (wrap64 z).
Proof.
  unfold is_u64, wrap64, ULONG_MAX.
  pose proof (Z.mod_pos_bound z (2 ^ 64) ltac:(lia)). lia.
Qed.

(** A [%lu] conversion stores a value of the type. *)
Lemma scan_ulong_range (s r : string) (v : Z) :
  scan_ulong s = Some (v, r) -> is_u64 v.
Proof.
  unfold scan_ulong. destruct (scan_sign (skip_space s)) as [neg t].
  pose proof (scan_digits_nonneg t 0 ltac:(lia)) as Hn.
  destruct (scan_digits t 0) as [[k d] u]. simpl in Hn.
  destruct k; [discriminate|].
  destruct (Z.gtb_spec d ULONG_MAX) as [Hgt | Hle].
  - intros [= <- _]. unfold is_u64, ULONG_MAX. lia.
  - destruct neg; intros [= <- _]; [apply wrap64_range | split; assumption].
Qed.

Lemma scan_ulongs_range (n : nat) :
  forall s, Forall is_u64 (scan_ulongs n s).
Proof.
  induction n as [|n IH]; intros s; cbn [scan_ulongs]; [constructor|].
  destruct (scan_ulong s) as [[v r]|] eqn:Hs; [|constructor].
  constructor; [exact (scan_ulong_range _ _ _ Hs) | apply IH].
Qed.

Lemma scan_ulongs_blank (n : nat) (s : string) :
  scan_ulongs n (String " " s) = scan_ulongs n s.
Proof. destruct n; reflexivity. Qed.

Lemma scan_ulongs_numeral (m : nat) (n : N) (rest : string) :
  starts_with_digit rest = false -> Z.of_N n <= ULONG_MAX ->
  scan_ulongs (S m) (numeral n ++ rest) = Z.of_N n :: scan_ulongs m rest.
Proof.
  intros Hrest Hn. cbn [scan_ulongs]. now rewrite scan_ulong_numeral.
Qed.

(** X1.  [parseCPUStats] reads the aggregate line back: on a text that
    begins with the line the kernel prints for seven 64-bit counters,
    whatever follows the seventh (guest fields, per-core lines), it
    returns exactly these counters. *)
Theorem parseCPUStats_round_trip (c : cpu_times) (rest : string) :
  cpu_valid c -> starts_with_digit rest = false ->
  parseCPUStats (cpu_text c rest) = Some c.
Proof.
  unfold cpu_valid, is_u64. intros (Hu & Hn & Hs & Hi & Hw & Hq & Hsq) Hrest.
  unfold parseCPUStats, cpu_text.
  change (strstr ("cpu  " ++ ?x) "cpu ") with (Some ("cpu  " ++ x)).
  cbn [advance append].
  rewrite !scan_ulongs_blank.
  repeat (rewrite scan_ulongs_numeral by (reflexivity || (rewrite Z2N.id; lia));
          cbn [append]; rewrite ?scan_ulongs_blank).
  rewrite scan_ulongs_numeral by (assumption || (rewrite Z2N.id; lia)).
  cbn [scan_ulongs]. rewrite !Z2N.id by lia. now destruct c.
Qed.

Lemma parseCPUStats_round_trip_witness :
  let c := mk_cpu_times 100 2 30 4000 50 6 7 in
  let rest := String "010" "cpu0 50 1 15 2000 25 3 3 0 0 0"%string in
  cpu_valid c /\ starts_with_digit rest = false /\
  parseCPUStats (cpu_text c rest) = Some c.
Proof.
  intros c rest.
  assert (Hc : cpu_valid c) by (subst c; cpu_side).
  split; [exact Hc|]. split; [reflexivity|].
  exact (parseCPUStats_round_trip c rest Hc eq_refl).
Defined.

(** X2.  [parseCPUStats] fails on every text in which [cpu] followed by a
    blank does not occur (per-core lines [cpu0], [cpu1] do not count), and
    whatever it returns is a snapshot of seven 64-bit values. *)
Theorem parseCPUStats_sound (buffer : string) :
  (~ occurs "cpu " buffer -> parseCPUStats buffer = None) /\
  (forall c, parseCPUStats buffer = Some c ->
             cpu_valid c /\ occurs "cpu " buffer).
Proof.
  split.
  - intros Hn. apply strstr_None in Hn. unfold parseCPUStats. now rewrite Hn.
  - intros c Hc. unfold parseCPUStats in Hc.
    destruct (strstr buffer "cpu ") as [line|] eqn:Hl; [|discriminate].
    split.
    + pose proof (scan_ulongs_range 7 (advance 3 line)) as Hr.
      destruct (scan_ulongs 7 (advance 3 line))
        as [|a [|b [|x [|d [|e [|f [|g [|h l]]]]]]]]; try discriminate.
      injection Hc as <-.
      repeat match goal with
             | H : Forall _ (_ :: _) |- _ => inversion H; subst; clear H
             end.
      unfold cpu_valid. simpl. tauto.
    + destruct (strstr_Some _ _ _ Hl) as (Hp & pre & Hb).
      apply prefix_append in Hp. destruct Hp as [post Hp].
      exists pre, post. congruence.
Qed.

Lemma getCPUUsage_not_error {D : Type} `{DoubleOps D}
  (st : cpu_state) (c : cpu_times) :
  is_cpu_error (snd (getCPUUsage st (Some c))) = false.
Proof.
  unfold getCPUUsage. destruct (calculateCPUUsage st c) as [st' u].
  destruct (d_ltb u (d_of_Z 0)); reflexivity.
Qed.

Lemma monitor_files_cons {D : Type} `{DoubleOps D}
  (st : cpu_state) (f : file) (rest : list file) :
  monitor_files st (f :: rest) =
  (fst (monitor_files (fst (getCPUUsage st (read_cpu_stats f))) rest),
   snd (getCPUUsage st (read_cpu_stats f))
   :: snd (monitor_files (fst (getCPUUsage st (read_cpu_stats f))) rest)).
Proof.
  cbn [monitor_files]. destruct (getCPUUsage st (read_cpu_stats f)) as [st1 r].
  cbn [fst snd]. destruct (monitor_files st1 rest) as [st2 rs]. reflexivity.
Qed.

Lemma monitor_step {D : Type} `{DoubleOps D}
  (st : cpu_state) (c : cpu_times) (rest : list cpu_times) :
  monitor st (c :: rest) =
  (fst (monitor (fst (getCPUUsage st (Some c))) rest),
   snd (getCPUUsage st (Some c))
   :: snd (monitor (fst (getCPUUsage st (Some c))) rest)).
Proof.
  cbn [monitor]. destruct (getCPUUsage st (Some c)) as [st1 r].
  cbn [fst snd]. destruct (monitor st1 rest) as [st2 rs]. reflexivity.
Qed.

(** X3.  A call of [getCPUUsage] whose read or parse of [/proc/stat]
    fails changes nothing: over any sequence of calls, the retained state
    and the reports other than the error are those of the calls that
    succeeded alone.  In particular a failure before the first success
    does not use up the warm-up. *)
Theorem failed_reads_leave_no_trace {D : Type} `{DoubleOps D}
  (stats : list file) (st : cpu_state) :
  fst (monitor_files st stats) = fst (monitor st (parsed_samples stats)) /\
  filter (fun r => negb (is_cpu_error r)) (snd (monitor_files st stats))
  = snd (monitor st (parsed_samples stats)).
Proof.
  revert st. induction stats as [|f rest IH]; intros st; [split; reflexivity|].
  rewrite monitor_files_cons. unfold parsed_samples. cbn [flat_map fst snd filter].
  fold (parsed_samples rest).
  destruct (read_cpu_stats f) as [c|].
  - cbn [app]. rewrite monitor_step. cbn [fst snd].
    rewrite getCPUUsage_not_error. cbn [negb].
    destruct (IH (fst (getCPUUsage st (Some c)))) as [IH1 IH2].
    split; [exact IH1 | now rewrite IH2].
  - cbn [getCPUUsage fst snd is_cpu_error negb app]. apply IH.
Qed.

Lemma sub64_advance (a d : Z) : is_u64 d -> sub64 (wrap64 (a + d)) a = d.
Proof.
  intros Hd. unfold sub64, wrap64. rewrite Zminus_mod_idemp_l.
  replace (a + d - a) with d by ring. apply wrap64_small. exact Hd.
Qed.

Lemma add64_small (a b : Z) : 0 <= a -> 0 <= b -> a + b <= ULONG_MAX -> add64 a b = a + b.
Proof.
  intros Ha Hb Hs. apply wrap64_small. lia.
Qed.

(** X4.  The deltas survive the wrap-around of a counter: when the
    counters advance from any retained values by non-negative amounts
    that sum to at most [2^64 - 1], each counter wrapping in 64 bits if it
    must, [calculateCPUUsage] sees exactly these amounts, stores the new
    snapshot, and its result lies in [0, 100]. *)
Theorem deltas_survive_counter_wrap (st : cpu_state) (d : cpu_times) :
  first_run st = false ->
  cpu_le cpu_zero d -> cpu_sum d <= ULONG_MAX ->
  let cur := advance_counters (prev st) d in
  idle_delta (prev st) cur = idle d /\
  total_delta (prev st) cur = cpu_sum d /\
  (0 <= snd (calculateCPUUsage (D:=Q) st cur) <= 100)%Q /\
  (0 < cpu_sum d -> fst (calculateCPUUsage (D:=Q) st cur) = mk_cpu_state cur false).
Proof.
  intros Hfr Hd Hsum cur.
  unfold cpu_le, cpu_zero in Hd. cbn [user nice system idle iowait irq softirq] in Hd.
  destruct Hd as (Hu & Hn & Hs & Hi & Hw & Hq & Hsq).
  unfold cpu_sum in Hsum.
  assert (Hidle : idle_delta (prev st) cur = idle d).
  { unfold idle_delta, cur, advance_counters. cbn [idle].
    apply sub64_advance. unfold is_u64. lia. }
  assert (Htot : total_delta (prev st) cur = cpu_sum d).
  { unfold total_delta, cur, advance_counters.
    cbn [user nice system idle iowait irq softirq].
    rewrite !sub64_advance by (unfold is_u64; lia).
    repeat match goal with
           | |- context [add64 ?a ?b] =>
               lazymatch a with
               | context [add64 _ _] => fail
               | _ => rewrite (add64_small a b) by lia
               end
           end.
    reflexivity. }
  split; [exact Hidle|]. split; [exact Htot|].
  split.
  - rewrite (calculateCPUUsage_value st cur Hfr), Hidle, Htot.
    destruct (Z.eqb_spec (cpu_sum d) 0) as [E | E].
    + split; [apply Qle_refl | discriminate].
    + apply usage_range; unfold cpu_sum in *; lia.
  - intros Hpos. apply calculateCPUUsage_stores. right. rewrite Htot. lia.
Qed.

Lemma deltas_survive_counter_wrap_witness :
  let st := mk_cpu_state (mk_cpu_times (2 ^ 64 - 5) 0 7 100 0 0 0) false in
  let d := mk_cpu_times 30 0 10 60 0 0 0 in
  first_run st = false /\ cpu_le cpu_zero d /\ cpu_sum d <= ULONG_MAX /\
  advance_counters (prev st) d = mk_cpu_times 25 0 17 160 0 0 0 /\
  total_delta (prev st) (advance_counters (prev st) d) = 100.
Proof.
  intros st d.
  assert (Hd : cpu_le cpu_zero d) by (subst d; cpu_side).
  assert (Hs : cpu_sum d <= ULONG_MAX) by (subst d; cpu_side).
  split; [reflexivity|]. split; [exact Hd|]. split; [exact Hs|].
  split; [reflexivity|].
  exact (proj1 (proj2 (deltas_survive_counter_wrap st d eq_refl Hd Hs))).
Defined.

(** ** Reading and parsing [/proc/meminfo] *)

Lemma percent_range (u t : Z) :
  0 <= u <= t -> 0 < t ->
  (0 <= 100 * inject_Z u / inject_Z t <= 100)%Q.
Proof.
  intros [Hu Hut] Ht.
  assert (Htq : (0 < inject_Z t)%Q).
  { change (inject_Z 0 < inject_Z t)%Q. rewrite <- Zlt_Qlt. exact Ht. }
  change 100%Q with (inject_Z 100). rewrite <- inject_Z_mult. split.
  - apply Qle_shift_div_l; [exact Htq|]. rewrite Qmult_0_l.
    change (inject_Z 0 <= inject_Z (100 * u))%Q. rewrite <- Zle_Qle. lia.
  - apply Qle_shift_div_r; [exact Htq|]. rewrite <- inject_Z_mult, <- Zle_Qle. lia.
Qed.

(** X5.  When the free amount is between 0 and the total, the report is
    coherent: free and used are non-negative, used + free = total (in MB),
    used is at most the total, and the percentage lies in [0, 100]. *)
Theorem memory_stats_coherent (memTotal_kB memFree_kB : Z) :
  0 <= memFree_kB <= memTotal_kB ->
  let r := memory_stats (D:=Q) memTotal_kB memFree_kB in
  0 <= memFree_MB r /\
  0 <= memUsed_MB r <= memTotal_MB r /\
  memUsed_MB r + memFree_MB r = memTotal_MB r /\
  (0 <= usagePercent r <= 100)%Q.
Proof.
  intros [Hf Hft] r.
  assert (H0 : 0 <= Z.quot memFree_kB 1024) by (apply Z.quot_pos; lia).
  assert (H1 : Z.quot memFree_kB 1024 <= Z.quot memTotal_kB 1024)
    by (apply Z.quot_le_mono; lia).
  subst r. cbn [memory_stats memFree_MB memUsed_MB memTotal_MB].
  split; [exact H0|]. split; [lia|]. split; [lia|].
  destruct (Z_lt_le_dec 0 (Z.quot memTotal_kB 1024)) as [Hpos | Hle].
  - rewrite (memory_stats_percent_pos memTotal_kB memFree_kB Hpos).
    apply percent_range; lia.
  - rewrite (memory_stats_percent_zero (D:=Q) memTotal_kB memFree_kB Hle).
    split; [apply Qle_refl | discriminate].
Qed.

Lemma memory_stats_coherent_witness :
  0 <= 3145728 <= 8388608 /\
  (0 <= usagePercent (memory_stats (D:=Q) 8388608 3145728) <= 100)%Q /\
  memUsed_MB (memory_stats (D:=Q) 8388608 3145728) = 5120.
Proof.
  assert (H : 0 <= 3145728 <= 8388608) by lia.
  split; [exact H|].
  split; [exact (proj2 (proj2 (proj2 (memory_stats_coherent 8388608 3145728 H)))) | reflexivity].
Defined.

Lemma strtol_range (s : string) : LONG_MIN <= strtol s <= LONG_MAX.
Proof.
  unfold strtol. destruct (scan_sign (skip_space s)) as [neg t].
  pose proof (scan_digits_nonneg t 0 ltac:(lia)) as Hn.
  destruct (scan_digits t 0) as [[k v] u]. simpl in Hn.
  unfold LONG_MIN, LONG_MAX. destruct k; [lia|]. destruct neg; lia.
Qed.

Lemma parse_meminfo_range (buffer : string) :
  LONG_MIN <= fst (parse_meminfo buffer) <= LONG_MAX /\
  LONG_MIN <= snd (parse_meminfo buffer) <= LONG_MAX.
Proof.
  unfold parse_meminfo. cbn [fst snd]. split.
  - destruct (strstr buffer "MemTotal:"); [apply strtol_range | unfold LONG_MIN, LONG_MAX; lia].
  - destruct (strstr buffer "MemFree:"); [apply strtol_range | unfold LONG_MIN, LONG_MAX; lia].
Qed.

(** X6.  Whatever [/proc/meminfo] holds, once it is read the call
    produces a report whose three amounts fit the type [long]: the total
    and the free amount lie in [-2^53, 2^53), so the subtraction that
    gives the used amount cannot overflow. *)
Theorem getMemoryUsage_in_range {D : Type} `{DoubleOps D} (bytes : string) :
  exists r : mem_report D,
    getMemoryUsage (Content bytes) = Some r /\
    - 2 ^ 53 <= memTotal_MB r < 2 ^ 53 /\
    - 2 ^ 53 <= memFree_MB r < 2 ^ 53 /\
    memUsed_MB r = memTotal_MB r - memFree_MB r /\
    LONG_MIN <= memUsed_MB r <= LONG_MAX.
Proof.
  unfold getMemoryUsage.
  pose proof (parse_meminfo_range (c_str (take 2047 bytes))) as [Ht Hf].
  destruct (parse_meminfo (c_str (take 2047 bytes))) as [t f]. cbn [fst snd] in Ht, Hf.
  eexists. split; [reflexivity|].
  cbn [memory_stats memTotal_MB memFree_MB memUsed_MB].
  assert (Hq : forall x, LONG_MIN <= x <= LONG_MAX -> - 2 ^ 53 <= Z.quot x 1024 < 2 ^ 53).
  { intros x [Hlo Hhi].
    pose proof (Z.quot_le_mono _ _ 1024 ltac:(lia) Hlo) as H1.
    pose proof (Z.quot_le_mono _ _ 1024 ltac:(lia) Hhi) as H2.
    change (Z.quot LONG_MIN 1024) with (- 2 ^ 53) in H1.
    change (Z.quot LONG_MAX 1024) with (2 ^ 53 - 1) in H2. lia. }
  pose proof (Hq t Ht). pose proof (Hq f Hf).
  unfold LONG_MIN, LONG_MAX. repeat split; lia.
Qed.

Open Scope string_scope.

Lemma skip_space_spaces (k : nat) (s : string) :
  skip_space (spaces k ++ s) = skip_space s.
Proof. induction k as [|k IH]; [reflexivity | exact IH]. Qed.

(** [strtol] reads a printed number back, after any blanks. *)
Lemma strtol_numeral (k : nat) (n : N) (rest : string) :
  starts_with_digit rest = false -> (Z.of_N n <= LONG_MAX)%Z ->
  strtol (spaces k ++ numeral n ++ rest) = Z.of_N n.
Proof.
  intros Hrest Hn. unfold strtol.
  rewrite skip_space_spaces, <- (skip_space_numeral n rest) at 1.
  rewrite skip_space_numeral, numeral_head.
  unfold numeral. rewrite (scan_digits_uint _ _ Hrest), numeral_value.
  destruct (Decimal.nb_digits (N.to_uint n)) eqn:Hk.
  - exfalso. apply (numeral_nonnil n). now destruct (N.to_uint n).
  - apply Z.min_r. exact Hn.
Qed.

Lemma strstr_head (s t : string) : prefix t s = true -> strstr s t = Some s.
Proof.
  intros Hp. destruct s; cbn [strstr]; now rewrite Hp.
Qed.

(** A search for a text steps over a part that lacks its first byte. *)
Lemma strstr_skip (a b : string) (c : ascii) (t : string) :
  strchr a c = None -> strstr (a ++ b) (String c t) = strstr b (String c t).
Proof.
  induction a as [|x a IH]; [reflexivity|].
  cbn [strchr append strstr prefix].
  destruct (Ascii.eqb_spec x c) as [-> | Hne]; [discriminate|].
  intros Ha. destruct (ascii_dec c x) as [E | _]; [congruence|]. apply IH, Ha.
Qed.

Lemma strchr_spaces (k : nat) (c : ascii) :
  Ascii.eqb " " c = false -> strchr (spaces k) c = None.
Proof.
  intros Hc. induction k as [|k IH]; [reflexivity|].
  cbn [spaces strchr]. now rewrite Hc.
Qed.

Lemma strchr_numeral (n : N) (c : ascii) :
  isdigit c = false -> strchr (numeral n) c = None.
Proof.
  intros Hc. unfold numeral.
  induction (N.to_uint n) as [|d IH|d IH|d IH|d IH|d IH|d IH|d IH|d IH|d IH|d IH];
    cbn [DecimalString.NilEmpty.string_of_uint strchr]; [reflexivity|..];
    match goal with
    | |- (if Ascii.eqb ?x c then _ else _) = None =>
        destruct (Ascii.eqb_spec x c) as [E | _];
        [rewrite <- E in Hc; discriminate | exact IH]
    end.
Qed.

(** X7.  [parse_meminfo] reads the kernel's text back: on a text that
    begins with the [MemTotal:] and [MemFree:] lines, each value printed
    after any number of blanks, it returns the two values, whatever lines
    follow. *)
Theorem parse_meminfo_round_trip (k1 k2 : nat) (total free : N) (rest : string) :
  (Z.of_N total <= LONG_MAX)%Z -> (Z.of_N free <= LONG_MAX)%Z ->
  parse_meminfo (meminfo_text k1 total k2 free rest) = (Z.of_N total, Z.of_N free).
Proof.
  intros Ht Hf. unfold parse_meminfo, meminfo_text.
  rewrite (strstr_head ("MemTotal:" ++ _) "MemTotal:")
    by (apply prefix_append; eexists; reflexivity).
  change (strstr ("MemTotal:" ++ ?x) "MemFree:") with (strstr ("emTotal:" ++ x) "MemFree:").
  rewrite (strstr_skip "emTotal:") by reflexivity.
  rewrite (strstr_skip (spaces k1)) by (apply strchr_spaces; reflexivity).
  rewrite (strstr_skip (numeral total)) by (apply strchr_numeral; reflexivity).
  rewrite (strstr_skip " kB") by reflexivity.
  change (strstr (String "010" ("MemFree:" ++ ?x)) "MemFree:")
    with (strstr ("MemFree:" ++ x) "MemFree:").
  rewrite (strstr_head ("MemFree:" ++ _) "MemFree:")
    by (apply prefix_append; eexists; reflexivity).
  cbn [advance append].
  rewrite !strtol_numeral by (assumption || reflexivity). reflexivity.
Qed.

Lemma parse_meminfo_round_trip_witness :
  (Z.of_N 16777216 <= LONG_MAX)%Z /\ (Z.of_N 8388608 <= LONG_MAX)%Z /\
  parse_meminfo (meminfo_text 7 16777216 9 8388608 "Buffers:  204800 kB")
  = (16777216, 8388608)%Z.
Proof.
  assert (H1 : (Z.of_N 16777216 <= LONG_MAX)%Z) by (unfold LONG_MAX; lia).
  assert (H2 : (Z.of_N 8388608 <= LONG_MAX)%Z) by (unfold LONG_MAX; lia).
  split; [exact H1|]. split; [exact H2|].
  exact (parse_meminfo_round_trip 7 9 16777216 8388608 "Buffers:  204800 kB" H1 H2).
Defined.

Open Scope Z_scope.

(** ** Directory entries and names *)

Open Scope string_scope.

Lemma append_nil_r (s : string) : s ++ EmptyString = s.
Proof. induction s as [|c s IH]; simpl; [reflexivity | now rewrite IH]. Qed.

Lemma length_append (a b : string) :
  String.length (a ++ b) = (String.length a + String.length b)%nat.
Proof. induction a as [|c a IH]; simpl; [reflexivity | now rewrite IH]. Qed.

Lemma take_all (n : nat) (s : string) :
  (String.length s <= n)%nat -> take n s = s.
Proof.
  revert s. induction n as [|n IH]; intros [|c s] Hl; simpl in *; try reflexivity; try lia.
  now rewrite IH by lia.
Qed.

Lemma length_take (n : nat) (s : string) : (String.length (take n s) <= n)%nat.
Proof.
  revert s. induction n as [|n IH]; intros [|c s]; simpl; try lia.
  specialize (IH s). lia.
Qed.

Lemma length_c_str (s : string) : (String.length (c_str s) <= String.length s)%nat.
Proof.
  induction s as [|c s IH]; simpl; [lia|].
  destruct (Ascii.eqb c Ascii.zero); simpl; lia.
Qed.

Lemma length_strip_newline (s : string) :
  (String.length (strip_newline s) <= String.length s)%nat.
Proof.
  induction s as [|c s IH]; [simpl; lia|].
  destruct s as [|d s].
  - simpl. destruct (Ascii.eqb c "010"); simpl; lia.
  - change (strip_newline (String c (String d s)))
      with (String c (strip_newline (String d s))).
    simpl String.length in *. lia.
Qed.

Lemma c_str_no_nul (s : string) : strchr s Ascii.zero = None -> c_str s = s.
Proof.
  induction s as [|c s IH]; [reflexivity|]. simpl.
  destruct (Ascii.eqb c Ascii.zero); [discriminate|].
  intros Hs. now rewrite IH.
Qed.

Lemma strip_newline_append (s : string) :
  strip_newline (s ++ String "010" EmptyString) = s.
Proof.
  induction s as [|c s IH]; [reflexivity|].
  destruct s as [|d s].
  - reflexivity.
  - change (strip_newline (String c (String d s) ++ String "010" EmptyString))
      with (String c (strip_newline (String d s ++ String "010" EmptyString))).
    now rewrite IH.
Qed.

Lemma all_digits_uint (d : Decimal.uint) :
  all_digits (DecimalString.NilEmpty.string_of_uint d) = true.
Proof. induction d; simpl; auto. Qed.

Lemma isNumeric_numeral (n : N) : isNumeric (numeral n) = true.
Proof.
  unfold isNumeric, numeral. pose proof (numeral_nonnil n) as Hn.
  pose proof (all_digits_uint (N.to_uint n)) as Hd.
  destruct (N.to_uint n); [contradiction|..]; exact Hd.
Qed.

Lemma to_int32_small (z : Z) : (- 2 ^ 31 <= z < 2 ^ 31)%Z -> to_int32 z = z.
Proof.
  intros Hz. unfold to_int32. rewrite Z.mod_small by lia. ring.
Qed.

Lemma to_int32_range (z : Z) : (- 2 ^ 31 <= to_int32 z < 2 ^ 31)%Z.
Proof.
  unfold to_int32. pose proof (Z.mod_pos_bound (z + 2 ^ 31) (2 ^ 32) ltac:(lia)). lia.
Qed.

Lemma atoi_numeral (n : N) : (Z.of_N n < 2 ^ 31)%Z -> atoi (numeral n) = Z.of_N n.
Proof.
  intros Hn. unfold atoi.
  pose proof (strtol_numeral 0 n EmptyString eq_refl) as Hs.
  cbn [spaces append] in Hs. rewrite append_nil_r in Hs.
  rewrite Hs by (unfold LONG_MAX; lia). apply to_int32_small. lia.
Qed.

(** X8.  A process identifier survives the directory: for every pid
    below [2^31], the name under which [/proc] lists it is accepted by
    [isNumeric] and [atoi] gives the pid back. *)
Theorem pid_entry_round_trip (n : N) :
  (Z.of_N n < 2 ^ 31)%Z ->
  isNumeric (numeral n) = true /\ atoi (numeral n) = Z.of_N n.
Proof.
  intros Hn. split; [apply isNumeric_numeral | now apply atoi_numeral].
Qed.

Lemma pid_entry_round_trip_witness :
  (Z.of_N 4194303 < 2 ^ 31)%Z /\
  isNumeric "4194303" = true /\ atoi "4194303" = 4194303%Z.
Proof.
  assert (H : (Z.of_N 4194303 < 2 ^ 31)%Z) by lia.
  split; [exact H|]. exact (pid_entry_round_trip 4194303 H).
Defined.

(** X9.  Entries of [/proc] that are not made of digits only ([.], [..],
    [self], [cpuinfo], ...) play no part: the scan stores what it stores
    on the numeric entries alone. *)
Theorem scan_ignores_other_entries {D : Type} (fs : procfs) (entries : list string) :
  scan_entries (D:=D) fs entries [] = scan_entries fs (filter isNumeric entries) [] /\
  (forall e, isNumeric e = false -> read_process (D:=D) fs e = None).
Proof.
  split.
  - rewrite !scan_entries_all. f_equal.
    induction entries as [|e rest IH]; [reflexivity|].
    unfold all_records in *. cbn [flat_map filter].
    destruct (isNumeric e) eqn:He.
    + cbn [flat_map]. now rewrite IH.
    + unfold read_process at 1. rewrite He. exact IH.
  - intros e He. unfold read_process. now rewrite He.
Qed.

(** X10.  [readProcessName] returns the name the kernel wrote: for every
    name of at most 254 bytes without a NUL byte, the content of the comm
    file being the name and a newline, the result is the name. *)
Theorem readProcessName_round_trip (nm : string) :
  strchr nm Ascii.zero = None -> (String.length nm <= 254)%nat ->
  readProcessName (Content (nm ++ String "010" EmptyString)) = Some nm.
Proof.
  intros Hz Hl. unfold readProcessName.
  rewrite take_all by (rewrite length_append; simpl; lia).
  rewrite strip_newline_append, (c_str_no_nul nm Hz).
  destruct nm; reflexivity.
Qed.

Lemma readProcessName_round_trip_witness :
  strchr "Web Content" Ascii.zero = None /\
  (String.length "Web Content" <= 254)%nat /\
  readProcessName (Content (String.append "Web Content" (String "010" EmptyString)))
  = Some "Web Content".
Proof.
  assert (H1 : strchr "Web Content" Ascii.zero = None) by reflexivity.
  assert (H2 : (String.length "Web Content" <= 254)%nat) by (simpl; lia).
  split; [exact H1|]. split; [exact H2|].
  exact (readProcessName_round_trip "Web Content" H1 H2).
Defined.

(** X11.  [readProcessName] never returns more than 255 bytes, the room
    of the caller's buffer without its terminator, and fails on a comm
    file that cannot be opened or read or is empty. *)
Theorem readProcessName_bounded (comm : file) :
  match readProcessName comm with
  | Some nm => (String.length nm <= 255)%nat
  | None => True
  end /\
  readProcessName OpenFails = None /\
  readProcessName ReadFails = None /\
  readProcessName (Content EmptyString) = None.
Proof.
  split; [|repeat split].
  destruct comm as [| |bytes]; cbn [readProcessName]; try exact I.
  pose proof (length_take 255 bytes) as H1.
  destruct (take 255 bytes) as [|c t] eqn:Ht; [exact I|].
  pose proof (length_strip_newline (String c t)) as H2.
  pose proof (length_c_str (strip_newline (String c t))) as H3. lia.
Qed.

Open Scope Z_scope.

(** ** Records, ranking and the table *)

(** X12.  [compareProcesses] is a comparison [qsort] can use: its value
    is -1, 0 or 1; swapping the arguments negates it; it is 0 exactly on
    equal totals and negative exactly when the first total is the larger;
    and "not after" is transitive. *)
Theorem compareProcesses_consistent {D : Type} (a b c : ProcessInfo D) :
  (compareProcesses a b = -1 \/ compareProcesses a b = 0 \/ compareProcesses a b = 1) /\
  compareProcesses a b = - compareProcesses b a /\
  (compareProcesses a b = 0 <-> total_time a = total_time b) /\
  (compareProcesses a b < 0 <-> total_time b < total_time a) /\
  (compareProcesses a b <= 0 -> compareProcesses b c <= 0 -> compareProcesses a c <= 0).
Proof.
  unfold compareProcesses.
  destruct (Z.gtb_spec (total_time b) (total_time a));
    destruct (Z.ltb_spec (total_time b) (total_time a));
    destruct (Z.gtb_spec (total_time a) (total_time b));
    destruct (Z.ltb_spec (total_time a) (total_time b));
    destruct (Z.gtb_spec (total_time c) (total_time b));
    destruct (Z.ltb_spec (total_time c) (total_time b));
    destruct (Z.gtb_spec (total_time c) (total_time a));
    destruct (Z.ltb_spec (total_time c) (total_time a));
    try lia; repeat split; try lia; auto.
Qed.

Lemma parse_fields_range (ptr : string) (u s : Z) :
  parse_fields ptr = Some (u, s) -> is_u64 u /\ is_u64 s.
Proof.
  unfold parse_fields.
  destruct (skip_fields 11 ptr) as [q|]; [|discriminate].
  unfold sscanf_lu_lu.
  destruct (scan_ulong q) as [[a r]|] eqn:Ha; [|discriminate].
  destruct (scan_ulong (skip_space r)) as [[b r']|] eqn:Hb; [|discriminate].
  intros [= <- <-]. split; eapply scan_ulong_range; eassumption.
Qed.

Lemma parse_stat_range (buffer behind : string) (u s : Z) :
  parse_stat buffer behind = Some (u, s) -> is_u64 u /\ is_u64 s.
Proof.
  unfold parse_stat. destruct (strchr buffer ")") as [ptr|]; [|discriminate].
  apply parse_fields_range.
Qed.

Lemma readProcessStat_range (f : file) (stale : string) (u s : Z) :
  readProcessStat f stale = Some (u, s) -> is_u64 u /\ is_u64 s.
Proof.
  destruct f as [| |bytes]; cbn [readProcessStat]; try discriminate.
  destruct (take 4095 bytes); [discriminate | apply parse_stat_range].
Qed.

Lemma read_process_in_range {D : Type} (fs : procfs) (e : string) (p : ProcessInfo D) :
  read_process fs e = Some p -> record_in_range p.
Proof.
  unfold read_process. destruct (isNumeric e); [|discriminate].
  destruct (readProcessStat (stat_file fs (atoi e)) (stale_bytes fs (atoi e)))
    as [[u s]|] eqn:Hs; [|discriminate].
  destruct (readProcessStat_range _ _ _ _ Hs) as [Hu Hv].
  set (nm := match readProcessName (comm_file fs (atoi e)) with
             | Some n => n
             | None => "[unknown]"%string
             end).
  pose proof (length_take 255 nm) as Hl. set (tk := take 255 nm) in *.
  intros Hp. injection Hp as Hp. subst p. unfold record_in_range.
  split; [exact (to_int32_range _)|]. split; [exact Hl|].
  split; [exact Hu|]. split; [exact Hv|]. split; reflexivity.
Qed.

Lemma all_records_in_range {D : Type} (fs : procfs) (entries : list string) :
  Forall record_in_range (all_records (D:=D) fs entries).
Proof.
  induction entries as [|e rest IH]; [constructor|].
  unfold all_records. cbn [flat_map]. fold (all_records (D:=D) fs rest).
  destruct (read_process fs e) as [p|] eqn:Hp; [|exact IH].
  constructor; [exact (read_process_in_range fs e p Hp) | exact IH].
Qed.

Lemma scan_entries_in_range {D : Type} (fs : procfs) (entries : list string) :
  Forall record_in_range (scan_entries (D:=D) fs entries []).
Proof.
  rewrite scan_entries_all.
  pose proof (all_records_in_range (D:=D) fs entries) as Hall.
  rewrite <- (firstn_skipn 1024 (all_records fs entries)) in Hall.
  apply Forall_app in Hall. exact (proj1 Hall).
Qed.

(** X13.  Every record the scan stores respects the ranges of its C
    types: the pid is an [int], the name has at most 255 bytes, utime and
    stime are 64-bit unsigned values, the total is their 64-bit sum, and
    no percentage is set yet. *)
Theorem scan_records_in_range {D : Type} (fs : procfs) (entries : list string) :
  Forall record_in_range (scan_entries (D:=D) fs entries []) /\
  Forall (fun p => 0 <= total_time p <= ULONG_MAX) (scan_entries (D:=D) fs entries []).
Proof.
  pose proof (scan_entries_in_range (D:=D) fs entries) as Hr.
  split; [exact Hr|]. revert Hr. apply Forall_impl.
  intros p (_ & _ & _ & _ & Ht & _). rewrite Ht. apply wrap64_range.
Qed.

Lemma descending_app (a b : list Z) :
  descending (a ++ b) ->
  descending a /\ descending b /\ (forall x y, In x a -> In y b -> y <= x).
Proof.
  unfold descending. induction a as [|x a IH]; intros Hd.
  - split; [constructor|]. split; [exact Hd|]. intros x y [].
  - cbn [app] in Hd. apply StronglySorted_inv in Hd. destruct Hd as [Hd Hx].
    destruct (IH Hd) as (Ha & Hb & Hab).
    apply Forall_app in Hx. destruct Hx as [Hxa Hxb].
    split; [constructor; assumption|]. split; [exact Hb|].
    intros u v [<- | Hu] Hv.
    + rewrite Forall_forall in Hxb. now apply Hxb.
    + now apply Hab.
Qed.

Lemma rank_processes_data {D : Type} `{DoubleOps D}
  (sort : list (ProcessInfo D) -> list (ProcessInfo D)) (l : list (ProcessInfo D)) :
  map stored_data (rank_processes sort l) = map stored_data (sort l).
Proof.
  unfold rank_processes, set_percentages.
  destruct (sort l) as [|top rest]; [reflexivity|].
  destruct (total_time top >? 0); [|reflexivity].
  rewrite map_map. reflexivity.
Qed.

(** X14.  The table shows the top of the census: with a [qsort] that
    meets its contract and at least one record stored, [listTopProcesses]
    prints five rows, or all records when fewer are stored; the rows
    followed by the records left out are the records stored, each with the
    pid, name and counters it was stored with, in descending order of
    total; so no record left out has a larger total than a row. *)
Theorem listTopProcesses_selects_top {D : Type} `{DoubleOps D}
  (sort : list (ProcessInfo D) -> list (ProcessInfo D))
  (fs : procfs) (entries : list string) :
  qsort_contract (@compareProcesses D) sort ->
  proc_entries fs = Some entries ->
  scan_entries (D:=D) fs entries [] <> [] ->
  exists rows hidden,
    listTopProcesses sort fs = TopProcesses rows /\
    List.length rows = Nat.min 5 (List.length (scan_entries (D:=D) fs entries [])) /\
    Permutation (map stored_data (scan_entries (D:=D) fs entries []))
                (map stored_data (rows ++ hidden)) /\
    descending (map total_time (rows ++ hidden)) /\
    (forall r h, In r rows -> In h hidden -> total_time h <= total_time r).
Proof.
  intros Hsort He Hne. unfold listTopProcesses. rewrite He.
  set (scanned := scan_entries (D:=D) fs entries []) in *.
  set (ranked := rank_processes sort scanned).
  exists (firstn 5 ranked), (skipn 5 ranked).
  split; [destruct scanned; [contradiction | reflexivity]|].
  split.
  { rewrite length_firstn. unfold ranked.
    now rewrite (rank_processes_length sort Hsort). }
  split.
  { rewrite firstn_skipn. unfold ranked. rewrite rank_processes_data.
    apply Permutation_map, sort_perm, Hsort. }
  assert (Hd : descending (map total_time (firstn 5 ranked ++ skipn 5 ranked))).
  { rewrite firstn_skipn. unfold ranked. rewrite rank_processes_totals.
    apply sort_descending, Hsort. }
  split; [exact Hd|].
  rewrite map_app in Hd. destruct (descending_app _ _ Hd) as (_ & _ & Hab).
  intros r h Hr Hh. apply Hab; now apply in_map.
Qed.

Lemma listTopProcesses_selects_top_witness :
  qsort_contract (@compareProcesses Q) (sort_desc Q) /\
  proc_entries seven_fs = Some ["11"; "12"; "13"; "14"; "15"; "16"; "17"]%string /\
  map total_time
    (scan_entries (D:=Q) seven_fs ["11"; "12"; "13"; "14"; "15"; "16"; "17"]%string [])
  = [3; 9; 1; 7; 5; 8; 2] /\
  scan_entries (D:=Q) seven_fs ["11"; "12"; "13"; "14"; "15"; "16"; "17"]%string [] <> [] /\
  exists rows hidden,
    listTopProcesses (sort_desc Q) seven_fs = TopProcesses rows /\
    List.length rows
    = Nat.min 5 (List.length (scan_entries (D:=Q) seven_fs
                   ["11"; "12"; "13"; "14"; "15"; "16"; "17"]%string [])) /\
    Permutation
      (map stored_data (scan_entries (D:=Q) seven_fs
                          ["11"; "12"; "13"; "14"; "15"; "16"; "17"]%string []))
      (map stored_data (rows ++ hidden)) /\
    descending (map total_time (rows ++ hidden)) /\
    (forall r h, In r rows -> In h hidden -> total_time h <= total_time r).
Proof.
  assert (Hne : scan_entries (D:=Q) seven_fs
                  ["11"; "12"; "13"; "14"; "15"; "16"; "17"]%string [] <> [])
    by (vm_compute; discriminate).
  split; [exact (sort_desc_contract Q)|]. split; [reflexivity|].
  split; [vm_compute; reflexivity|]. split; [exact Hne|].
  exact (listTopProcesses_selects_top (sort_desc Q) seven_fs _
           (sort_desc_contract Q) eq_refl Hne).
Defined.

(** The table of [seven_fs]: the five largest totals, 9, 8, 7, 5 and 3. *)
Example seven_fs_table :
  match listTopProcesses (sort_desc Q) seven_fs with
  | TopProcesses rows => map (fun p => (pid p, total_time p)) rows
  | _ => []
  end = [(12, 9); (16, 8); (14, 7); (15, 5); (11, 3)].
Proof. vm_compute. reflexivity. Qed.

(** X15.  No row of the table shows a relative percentage outside
    [0, 100]: with a [qsort] that meets its contract, every percentage
    [listTopProcesses] assigns lies, as an exact value, between 0 and 100. *)
Theorem listTopProcesses_percent_range
  (sort : list (ProcessInfo Q) -> list (ProcessInfo Q))
  (fs : procfs) (rows : list (ProcessInfo Q)) :
  qsort_contract (@compareProcesses Q) sort ->
  listTopProcesses sort fs = TopProcesses rows ->
  forall r q, In r rows -> cpu_percent r = Some q -> (0 <= q <= 100)%Q.
Proof.
  intros Hsort Hl r q Hr Hq. unfold listTopProcesses in Hl.
  destruct (proc_entries fs) as [entries|]; [|discriminate].
  pose proof (scan_entries_in_range (D:=Q) fs entries) as Hrange.
  set (scanned := scan_entries (D:=Q) fs entries []) in *.
  assert (Hrows : rows = firstn 5 (rank_processes sort scanned)).
  { destruct scanned; [discriminate | now injection Hl]. }
  assert (Hin : In r (rank_processes sort scanned)).
  { rewrite <- (firstn_skipn 5 (rank_processes sort scanned)).
    apply in_or_app. left. now rewrite <- Hrows. }
  assert (Hsorted : forall p, In p (sort scanned) -> record_in_range p).
  { intros p Hp. rewrite Forall_forall in Hrange. apply Hrange.
    eapply Permutation_in; [symmetry; apply sort_perm, Hsort | exact Hp]. }
  destruct (sort scanned) as [|top rest] eqn:Hs.
  { unfold rank_processes in Hin. rewrite Hs in Hin. destruct Hin. }
  destruct (Z_lt_le_dec 0 (total_time top)) as [Hpos | Hle].
  - rewrite (rank_processes_positive sort scanned top rest Hs Hpos), Hs in Hin.
    apply in_map_iff in Hin. destruct Hin as (p & <- & Hp).
    cbn [relative_percent cpu_percent] in Hq. injection Hq as <-.
    assert (Hp' : In p scanned).
    { eapply Permutation_in; [symmetry; apply sort_perm, Hsort | now rewrite Hs]. }
    pose proof (sort_head_max sort Hsort scanned top rest Hs p Hp') as Hmax.
    destruct (Hsorted p Hp) as (_ & _ & _ & _ & Ht & _).
    pose proof (wrap64_range (utime p + stime p)) as [H0 _]. rewrite <- Ht in H0.
    apply percent_range; lia.
  - rewrite (rank_processes_zero sort scanned top rest Hs Hle), Hs in Hin.
    destruct (Hsorted r Hin) as (_ & _ & _ & _ & _ & Hnone). congruence.
Qed.

Lemma listTopProcesses_percent_range_witness :
  let p := mk_ProcessInfo 1 "init" 20 10 30 (Some (Qmake 3000 50)) in
  qsort_contract (@compareProcesses Q) (sort_desc Q) /\
  (exists rows, listTopProcesses (sort_desc Q) five_fs = TopProcesses rows /\ In p rows) /\
  (0 <= Qmake 3000 50 <= 100)%Q.
Proof.
  intros p.
  assert (Hl : listTopProcesses (sort_desc Q) five_fs
               = TopProcesses
                   [ mk_ProcessInfo 30 "cc1" 40 10 50 (Some (Qmake 5000 50)); p;
                     mk_ProcessInfo 44 "bash" 7 3 10 (Some (Qmake 1000 50));
                     mk_ProcessInfo 57 "[unknown]" 0 0 0 (Some (Qmake 0 50)) ])
    by (vm_compute; reflexivity).
  split; [exact (sort_desc_contract Q)|].
  split; [eexists; split; [exact Hl | right; left; reflexivity]|].
  exact (listTopProcesses_percent_range (sort_desc Q) five_fs _ (sort_desc_contract Q) Hl
           p (Qmake 3000 50) (or_intror (or_introl eq_refl)) eq_refl).
Defined.

(** ** One process, from its files to its record *)

Open Scope string_scope.

Lemma stat_line_nonempty (pid comm : string) (fields : list string) :
  stat_line pid comm fields <> EmptyString.
Proof. unfold stat_line. destruct pid; discriminate. Qed.

(** A stat file that fits the buffer and holds no NUL byte is parsed as
    it is, with the stale bytes behind it. *)
Lemma readProcessStat_line (line stale : string) :
  line <> EmptyString -> (String.length line <= 4095)%nat ->
  strchr line Ascii.zero = None ->
  readProcessStat (Content line) stale = parse_stat line stale.
Proof.
  intros Hne Hl Hz. unfold readProcessStat. rewrite take_all by exact Hl.
  destruct line as [|c r] eqn:Hline; [contradiction|]. rewrite <- Hline in *.
  cbv zeta. now rewrite c_str_memory, (c_str_no_nul line Hz), (after_nul_memory line stale Hz).
Qed.

(** X16.  [readProcessStat] returns utime and stime (fields 14 and 15)
    of every stat file of the usual shape: a name without closing
    parenthesis (blanks and opening parentheses are allowed), eleven
    fields without blanks before the two counters, any fields after them,
    on a line that fits the 4095 bytes read. *)
Theorem readProcessStat_fields (pid comm : string) (fields more : list string) (u s : N) :
  strchr pid ")" = None -> strchr comm ")" = None ->
  List.length fields = 11%nat ->
  Forall (fun f => strchr f " " = None) fields ->
  (Z.of_N u <= ULONG_MAX)%Z -> (Z.of_N s <= ULONG_MAX)%Z ->
  let line := stat_line pid comm (fields ++ numeral u :: numeral s :: more) in
  (String.length line <= 4095)%nat -> strchr line Ascii.zero = None ->
  forall stale, readProcessStat (Content line) stale = Some (Z.of_N u, Z.of_N s).
Proof.
  intros Hpid Hcomm Hlen Hf Hu Hs line Hl Hz stale.
  rewrite (readProcessStat_line line stale (stat_line_nonempty _ _ _) Hl Hz).
  now apply parse_stat_plain.
Qed.

Lemma readProcessStat_fields_witness :
  let fields := ["S"; "1"; "1234"; "1234"; "0"; "-1"; "4194304"; "120"; "0"; "3"; "0"] in
  let line := stat_line "1234" "Web (Content" (fields ++ numeral 111 :: numeral 222 :: ["0"; "0"]) in
  (String.length line <= 4095)%nat /\ strchr line Ascii.zero = None /\
  forall stale, readProcessStat (Content line) stale = Some (111, 222)%Z.
Proof.
  intros fields line.
  assert (Hl : (String.length line <= 4095)%nat) by (vm_compute; lia).
  assert (Hz : strchr line Ascii.zero = None) by reflexivity.
  assert (Hf : Forall (fun f => strchr f " " = None) fields)
    by (subst fields; repeat constructor).
  split; [exact Hl|]. split; [exact Hz|].
  exact (readProcessStat_fields "1234" "Web (Content" fields ["0"; "0"] 111 222
           eq_refl eq_refl eq_refl Hf ltac:(unfold ULONG_MAX; lia)
           ltac:(unfold ULONG_MAX; lia) Hl Hz).
Defined.

(** X17.  The steps of the scan compose: for a process with a pid below
    [2^31] whose stat file has the usual shape and whose comm file holds
    its name and a newline, the entry named by the pid yields the record
    with this pid, this name, the two counters and their 64-bit sum. *)
Theorem read_process_record {D : Type} (fs : procfs) (n : N)
  (pid comm nm : string) (fields more : list string) (u s : N) :
  (Z.of_N n < 2 ^ 31)%Z ->
  strchr pid ")" = None -> strchr comm ")" = None ->
  List.length fields = 11%nat ->
  Forall (fun f => strchr f " " = None) fields ->
  (Z.of_N u <= ULONG_MAX)%Z -> (Z.of_N s <= ULONG_MAX)%Z ->
  let line := stat_line pid comm (fields ++ numeral u :: numeral s :: more) in
  (String.length line <= 4095)%nat -> strchr line Ascii.zero = None ->
  stat_file fs (Z.of_N n) = Content line ->
  strchr nm Ascii.zero = None -> (String.length nm <= 254)%nat ->
  comm_file fs (Z.of_N n) = Content (nm ++ String "010" EmptyString) ->
  read_process (D:=D) fs (numeral n)
  = Some (mk_ProcessInfo (Z.of_N n) nm (Z.of_N u) (Z.of_N s)
                         (wrap64 (Z.of_N u + Z.of_N s)) None).
Proof.
  intros Hn Hpid Hcomm Hlen Hf Hu Hs line Hl Hz Hstat Hnz Hnl Hcommf.
  unfold read_process.
  rewrite isNumeric_numeral, (atoi_numeral n Hn), Hstat, Hcommf.
  rewrite (readProcessStat_line line _ (stat_line_nonempty _ _ _) Hl Hz).
  unfold line. rewrite (parse_stat_plain pid comm fields more u s) by assumption.
  assert (Hname : readProcessName (Content (nm ++ String "010" EmptyString)) = Some nm).
  { unfold readProcessName.
    rewrite take_all by (rewrite length_append; simpl; lia).
    rewrite strip_newline_append, (c_str_no_nul nm Hnz).
    destruct nm; reflexivity. }
  rewrite Hname, (take_all 255 nm) by lia. reflexivity.
Qed.

Lemma read_process_record_witness :
  let fields := ["S"; "1"; "1"; "1"; "0"; "-1"; "4194560"; "120"; "0"; "3"; "0"] in
  let more := ["0"; "0"; "20"; "0"; "1"; "0"; "100"; "0"; "0"] in
  stat_file five_fs (Z.of_N 30)
    = Content (stat_line "30" "cc1" (fields ++ numeral 40 :: numeral 10 :: more)) /\
  comm_file five_fs (Z.of_N 30) = Content ("cc1" ++ String "010" EmptyString) /\
  read_process (D:=Q) five_fs "30" = Some (mk_ProcessInfo 30 "cc1" 40 10 50 None).
Proof.
  intros fields more.
  assert (Hf : Forall (fun f => strchr f " " = None) fields)
    by (subst fields; repeat constructor).
  assert (Hl : (String.length (stat_line "30" "cc1"
                   (fields ++ numeral 40 :: numeral 10 :: more)) <= 4095)%nat)
    by (vm_compute; lia).
  split; [reflexivity|]. split; [reflexivity|].
  exact (read_process_record (D:=Q) five_fs 30 "30" "cc1" "cc1" fields more 40 10
           ltac:(lia) eq_refl eq_refl eq_refl Hf
           ltac:(unfold ULONG_MAX; lia) ltac:(unfold ULONG_MAX; lia)
           Hl eq_refl eq_refl eq_refl ltac:(simpl; lia) eq_refl).
Defined.

(** ** Menu and command line *)

Open Scope string_scope.

Lemma scan_digits_length (s : string) :
  forall acc k v t, scan_digits s acc = (k, v, t) ->
                    String.length s = (k + String.length t)%nat.
Proof.
  induction s as [|c r IH]; intros acc k v t.
  - cbn [scan_digits]. intros [= <- _ <-]. reflexivity.
  - rewrite scan_digits_step. destruct (isdigit c).
    + destruct (scan_digits r (10 * acc + digit_val c)) as [[k' v'] t'] eqn:Hr.
      intros [= <- _ <-]. apply IH in Hr. cbn [String.length]. lia.
    + intros [= <- _ <-]. reflexivity.
Qed.

Lemma skip_space_length (s : string) :
  (String.length (skip_space s) <= String.length s)%nat.
Proof.
  induction s as [|c r IH]; [reflexivity|]. cbn [skip_space].
  destruct (isspace c); cbn [String.length]; lia.
Qed.

Lemma scan_sign_length (s : string) :
  (String.length (snd (scan_sign s)) <= String.length s)%nat.
Proof.
  destruct s as [|c r]; [reflexivity|]. unfold scan_sign.
  destruct (Ascii.eqb_spec c "-") as [-> | Hm]; [cbn [snd String.length]; lia|].
  destruct (Ascii.eqb_spec c "+") as [-> | Hp]; [cbn [snd String.length]; lia|].
  destruct c as [[] [] [] [] [] [] [] []]; try reflexivity; congruence.
Qed.

(** A successful [scanf] reads at least one byte. *)
Lemma scanf_d_shorter (stdin rest : string) (choice : Z) :
  scanf_d stdin = Some (choice, rest) ->
  (String.length rest < String.length stdin)%nat.
Proof.
  unfold scanf_d. pose proof (skip_space_length stdin) as Hs.
  pose proof (scan_sign_length (skip_space stdin)) as Hg.
  destruct (scan_sign (skip_space stdin)) as [neg r]. cbn [snd] in Hg.
  destruct (scan_digits r 0) as [[k v] t] eqn:Hd.
  apply scan_digits_length in Hd.
  destruct k as [|k]; [discriminate|]. intros [= _ <-]. lia.
Qed.

Lemma strchr_suffix_length (s r : string) (c : ascii) :
  strchr s c = Some r -> (String.length r <= String.length s)%nat.
Proof.
  induction s as [|a s IH]; cbn [strchr]; [discriminate|].
  destruct (Ascii.eqb a c).
  - intros [= <-]. reflexivity.
  - intros Hs. apply IH in Hs. cbn [String.length]. lia.
Qed.

(** A line that is discarded holds at least its newline. *)
Lemma discard_line_shorter (stdin rest : string) :
  discard_line stdin = Some rest ->
  (String.length rest < String.length stdin)%nat.
Proof.
  unfold discard_line. destruct (strchr stdin "010") as [p|] eqn:Hp; [|discriminate].
  intros [= <-]. pose proof (strchr_suffix_length _ _ _ Hp) as Hl.
  pose proof (strchr_length _ _ _ Hp) as H1.
  destruct p as [|c p]; cbn [String.length advance] in *; lia.
Qed.

Lemma menu_then_end (step : menu_step) (r : list menu_step * option menu_end) :
  snd (menu_then step r) = snd r.
Proof. now destruct r. Qed.

(** With one more turn than the input has bytes, the menu loop is
    followed to its end. *)
Lemma displayMenu_ends (fuel : nat) :
  forall stdin, (String.length stdin < fuel)%nat ->
                exists e, snd (displayMenu fuel stdin) = Some e.
Proof.
  induction fuel as [|fuel IH]; intros stdin Hlen; [lia|].
  cbn [displayMenu].
  destruct (scanf_d stdin) as [[choice rest]|] eqn:Hs.
  - apply scanf_d_shorter in Hs.
    destruct (IH rest ltac:(lia)) as [e He].
    destruct (choice =? 1)%Z; [rewrite menu_then_end; eauto|].
    destruct (choice =? 2)%Z; [rewrite menu_then_end; eauto|].
    destruct (choice =? 3)%Z; [rewrite menu_then_end; eauto|].
    destruct (choice =? 4)%Z; [cbn [snd]; eauto|].
    destruct (choice =? 5)%Z; [cbn [snd]; eauto|].
    rewrite menu_then_end; eauto.
  - destruct (discard_line (skip_space stdin)) as [rest|] eqn:Hd; [|cbn [snd]; eauto].
    apply discard_line_shorter in Hd. pose proof (skip_space_length stdin).
    rewrite menu_then_end. apply IH. lia.
Qed.

(** The menu starts continuous monitoring with the interval 2 only. *)
Lemma displayMenu_monitor_2 (fuel : nat) :
  forall stdin n, snd (displayMenu fuel stdin) = Some (MenuMonitor n) -> n = 2%Z.
Proof.
  induction fuel as [|fuel IH]; intros stdin n; cbn [displayMenu]; [discriminate|].
  destruct (scanf_d stdin) as [[choice rest]|].
  - destruct (choice =? 1)%Z; [rewrite menu_then_end; apply IH|].
    destruct (choice =? 2)%Z; [rewrite menu_then_end; apply IH|].
    destruct (choice =? 3)%Z; [rewrite menu_then_end; apply IH|].
    destruct (choice =? 4)%Z; [cbn [snd]; congruence|].
    destruct (choice =? 5)%Z; [cbn [snd]; discriminate|].
    rewrite menu_then_end; apply IH.
  - destruct (discard_line (skip_space stdin)) as [rest|]; [|cbn [snd]; discriminate].
    rewrite menu_then_end. apply IH.
Qed.

(** A newline before the number is white space to [scanf]. *)
Lemma displayMenu_newline (fuel : nat) (stdin : string) :
  displayMenu fuel (String "010" stdin) = displayMenu fuel stdin.
Proof. destruct fuel; reflexivity. Qed.

(** [scanf] reads a printed number on its line. *)
Lemma scanf_d_numeral (n : N) (rest : string) :
  (Z.of_N n < 2 ^ 31)%Z ->
  scanf_d (numeral n ++ String "010" rest) = Some (Z.of_N n, String "010" rest).
Proof.
  intros Hn. unfold scanf_d. rewrite numeral_head.
  unfold numeral at 1. rewrite (scan_digits_uint _ _ (eq_refl : starts_with_digit (String "010" rest) = false)).
  destruct (Decimal.nb_digits (N.to_uint n)) eqn:Hk.
  - exfalso. apply (numeral_nonnil n). now destruct (N.to_uint n).
  - unfold atoi.
    pose proof (strtol_numeral 0 n (String "010" rest) eq_refl) as Hs.
    cbn [spaces append] in Hs. rewrite Hs by (unfold LONG_MAX; lia).
    rewrite to_int32_small by lia. reflexivity.
Qed.

Lemma menu_script_length (choices : list N) :
  (List.length choices <= String.length (menu_script choices))%nat.
Proof.
  induction choices as [|c rest IH]; [reflexivity|].
  cbn [menu_script List.length]. rewrite length_append. cbn [String.length]. lia.
Qed.

(** One turn of the menu on a line that holds a number. *)
Lemma displayMenu_numeral (fuel : nat) (c : N) (rest : string) :
  (Z.of_N c < 2 ^ 31)%Z ->
  displayMenu (S fuel) (numeral c ++ String "010" rest)
  = if (c =? 4)%N then ([], Some (MenuMonitor 2))
    else if (c =? 5)%N then ([], Some MenuExit)
    else menu_then (menu_choice c) (displayMenu fuel rest).
Proof.
  intros Hc. cbn [displayMenu]. rewrite (scanf_d_numeral c _ Hc), displayMenu_newline.
  unfold menu_choice.
  destruct (N.eqb_spec c 4) as [-> | H4]; [reflexivity|].
  destruct (N.eqb_spec c 5) as [-> | H5]; [reflexivity|].
  destruct (N.eqb_spec c 1) as [-> | H1]; [reflexivity|].
  destruct (N.eqb_spec c 2) as [-> | H2]; [reflexivity|].
  destruct (N.eqb_spec c 3) as [-> | H3]; [reflexivity|].
  destruct (Z.eqb_spec (Z.of_N c) 1); [lia|].
  destruct (Z.eqb_spec (Z.of_N c) 2); [lia|].
  destruct (Z.eqb_spec (Z.of_N c) 3); [lia|].
  destruct (Z.eqb_spec (Z.of_N c) 4); [lia|].
  destruct (Z.eqb_spec (Z.of_N c) 5); [lia|].
  reflexivity.
Qed.

Lemma menu_then_trace (step : menu_step) (t : list menu_step * menu_end) :
  menu_then step (fst t, Some (snd t))
  = (fst (let (steps, e) := t in (step :: steps, e)),
     Some (snd (let (steps, e) := t in (step :: steps, e)))).
Proof. now destruct t. Qed.

Lemma displayMenu_script (choices : list N) :
  Forall (fun c => (Z.of_N c < 2 ^ 31)%Z) choices ->
  forall fuel, (List.length choices < fuel)%nat ->
    displayMenu fuel (menu_script choices)
    = (fst (menu_trace choices), Some (snd (menu_trace choices))).
Proof.
  induction 1 as [|c rest Hc Hrest IH]; intros fuel Hfuel.
  - destruct fuel; [cbn [List.length] in Hfuel; lia | reflexivity].
  - destruct fuel as [|fuel]; [lia|]. cbn [List.length] in Hfuel.
    cbn [menu_script menu_trace]. rewrite (displayMenu_numeral fuel c _ Hc).
    destruct (c =? 4)%N; [reflexivity|]. destruct (c =? 5)%N; [reflexivity|].
    rewrite (IH fuel) by lia. apply menu_then_trace.
Qed.

(** Once a script has reached 4 or 5, what follows it is not read. *)
Lemma displayMenu_script_stops (choices : list N) (more : string) :
  Forall (fun c => (Z.of_N c < 2 ^ 31)%Z) choices ->
  In 4%N choices \/ In 5%N choices ->
  forall fuel, (List.length choices < fuel)%nat ->
    displayMenu fuel (menu_script choices ++ more)
    = (fst (menu_trace choices), Some (snd (menu_trace choices))).
Proof.
  induction 1 as [|c rest Hc Hrest IH]; intros Hin fuel Hfuel.
  - destruct Hin as [[] | []].
  - destruct fuel as [|fuel]; [lia|]. cbn [List.length] in Hfuel.
    cbn [menu_script menu_trace].
    replace ((numeral c ++ String "010" (menu_script rest)) ++ more)
      with (numeral c ++ String "010" (menu_script rest ++ more))
      by (now rewrite append_assoc).
    rewrite (displayMenu_numeral fuel c _ Hc).
    destruct (N.eqb_spec c 4) as [-> | H4]; [reflexivity|].
    destruct (N.eqb_spec c 5) as [-> | H5]; [reflexivity|].
    rewrite (IH ltac:(destruct Hin as [[He | Hin] | [He | Hin]]; congruence || tauto) fuel)
      by lia.
    apply menu_then_trace.
Qed.

(** A script without 4 and 5 is followed to its end. *)
Lemma menu_trace_to_the_end (choices : list N) :
  ~ In 4%N choices -> ~ In 5%N choices ->
  menu_trace choices = ((map menu_choice choices ++ [InvalidInput])%list, MenuStuck).
Proof.
  induction choices as [|c rest IH]; intros H4 H5; [reflexivity|].
  cbn [menu_trace map app].
  destruct (N.eqb_spec c 4) as [-> | N4]; [exfalso; apply H4; now left|].
  destruct (N.eqb_spec c 5) as [-> | N5]; [exfalso; apply H5; now left|].
  rewrite IH; [reflexivity | |]; intros Hin; [apply H4 | apply H5]; now right.
Qed.

(** X18.  [continuousMonitor] is called in two cases only: with two
    arguments, [-c] and a number whose [atoi] is positive, which is the
    interval; and with no argument, when the menu reads the choice 4, with
    the interval 2.  The interval is a positive [int] in both.  For every
    [0 < n < 2^31] the decimal numeral of [n] after [-c] is taken as the
    interval [n]; [-c] with an argument whose [atoi] is not positive gives
    the error message; in menu mode the loop is followed to its end
    whatever the input; and a 4 on the first line starts the monitoring. *)
Theorem main_continuous (argv : list string) (stdin : string) (n : Z) :
  (monitor_interval (main_action argv stdin) = Some n <->
   (exists a0 a2, argv = [a0; "-c"; a2] /\ atoi a2 = n /\ (0 < n)%Z) \/
   (exists a0, argv = [a0] /\ n = 2%Z /\
               snd (displayMenu (S (String.length stdin)) stdin) = Some (MenuMonitor 2))) /\
  (monitor_interval (main_action argv stdin) = Some n -> (0 < n < 2 ^ 31)%Z) /\
  (forall a0 k, (0 < Z.of_N k < 2 ^ 31)%Z ->
                main_action [a0; "-c"; numeral k] stdin = Continuous (Z.of_N k)) /\
  (forall a0 a2, (atoi a2 <= 0)%Z -> main_action [a0; "-c"; a2] stdin = BadInterval) /\
  (forall a0, exists steps e, main_action [a0] stdin = Menu steps (Some e)) /\
  (forall a0 rest,
     main_action [a0] ("4" ++ String "010" rest) = Menu [] (Some (MenuMonitor 2))).
Proof.
  assert (Hiff : monitor_interval (main_action argv stdin) = Some n <->
    (exists a0 a2, argv = [a0; "-c"; a2] /\ atoi a2 = n /\ (0 < n)%Z) \/
    (exists a0, argv = [a0] /\ n = 2%Z /\
       snd (displayMenu (S (String.length stdin)) stdin) = Some (MenuMonitor 2))).
  { split.
    - destruct argv as [|a0 [|a1 [|a2 [|a3 rest]]]]; cbn [main_action]; try discriminate.
      + destruct (displayMenu (S (String.length stdin)) stdin) as [steps e] eqn:Hm.
        cbn [monitor_interval]. destruct e as [[| interval |]|]; try discriminate.
        intros [= <-]. right. exists a0.
        assert (Hi : interval = 2%Z).
        { apply (displayMenu_monitor_2 (S (String.length stdin)) stdin).
          now rewrite Hm. }
        subst interval. repeat split.
      + destruct (String.eqb a1 "-h"); discriminate.
      + destruct (String.eqb a1 "-m").
        * destruct (String.eqb a2 "cpu"); [discriminate|].
          destruct (String.eqb a2 "mem"); [discriminate|].
          destruct (String.eqb a2 "proc"); discriminate.
        * destruct (String.eqb_spec a1 "-c") as [-> | _]; [|discriminate].
          destruct (Z.leb_spec (atoi a2) 0); [discriminate|].
          intros [= <-]. left. exists a0, a2. repeat split. assumption.
    - intros [(a0 & a2 & -> & <- & Hpos) | (a0 & -> & -> & Hm)].
      + cbn [main_action].
        change (String.eqb "-c" "-m") with false. change (String.eqb "-c" "-c") with true.
        cbv iota. destruct (Z.leb_spec (atoi a2) 0); [lia | reflexivity].
      + cbn [main_action].
        destruct (displayMenu (S (String.length stdin)) stdin) as [steps e].
        cbn [snd] in Hm. now subst e. }
  split; [exact Hiff|]. split.
  { intros Hm. apply Hiff in Hm.
    destruct Hm as [(_ & a2 & _ & <- & Hpos) | (_ & _ & -> & _)]; [|lia].
    pose proof (to_int32_range (strtol a2)). unfold atoi in *. lia. }
  split.
  { intros a0 k Hk. cbn [main_action].
    change (String.eqb "-c" "-m") with false. change (String.eqb "-c" "-c") with true.
    cbv iota. rewrite atoi_numeral by lia.
    destruct (Z.leb_spec (Z.of_N k) 0); [lia | reflexivity]. }
  split.
  { intros a0 a2 Hle. cbn [main_action].
    change (String.eqb "-c" "-m") with false. change (String.eqb "-c" "-c") with true.
    cbv iota. destruct (Z.leb_spec (atoi a2) 0); [reflexivity | lia]. }
  split.
  { intros a0. cbn [main_action].
    destruct (displayMenu_ends (S (String.length stdin)) stdin ltac:(lia)) as [e He].
    destruct (displayMenu (S (String.length stdin)) stdin) as [steps e'].
    cbn [snd] in He. subst e'. eauto. }
  intros a0 rest. cbn [main_action].
  change ("4" ++ String "010" rest) with (numeral 4 ++ String "010" rest).
  set (input := numeral 4 ++ String "010" rest).
  cbn [displayMenu]. unfold input. rewrite (scanf_d_numeral 4 rest) by lia.
  reflexivity.
Qed.

(** X21.  The menu follows a script: when the standard input holds one
    number per line, [displayMenu] performs the choices in order, 1, 2 and
    3 by their sampler and any other number but 4 and 5 by the message for
    an invalid choice.  It stops at the first 4, which starts the
    monitoring with the interval 2, or at the first 5, which leaves the
    menu, and whatever follows the script is not read.  When the script
    ends first, every line is answered, the next prompt gets the message
    for invalid input, and the loop that discards the line does not end. *)
Theorem displayMenu_follows_script (a0 : string) (choices : list N) :
  Forall (fun c => (Z.of_N c < 2 ^ 31)%Z) choices ->
  main_action [a0] (menu_script choices)
  = Menu (fst (menu_trace choices)) (Some (snd (menu_trace choices))) /\
  (In 4%N choices \/ In 5%N choices ->
   forall more,
     main_action [a0] (menu_script choices ++ more)
     = main_action [a0] (menu_script choices)) /\
  (~ In 4%N choices -> ~ In 5%N choices ->
   main_action [a0] (menu_script choices)
   = Menu (map menu_choice choices ++ [InvalidInput])%list (Some MenuStuck)).
Proof.
  intros Hc.
  assert (Hrun : main_action [a0] (menu_script choices)
                 = Menu (fst (menu_trace choices)) (Some (snd (menu_trace choices)))).
  { cbn [main_action].
    rewrite (displayMenu_script choices Hc)
      by (pose proof (menu_script_length choices); lia).
    reflexivity. }
  split; [exact Hrun|]. split.
  { intros Hin more. rewrite Hrun. cbn [main_action].
    rewrite (displayMenu_script_stops choices more Hc Hin).
    - reflexivity.
    - pose proof (menu_script_length choices). rewrite length_append. lia. }
  intros H4 H5. rewrite Hrun, (menu_trace_to_the_end choices H4 H5). reflexivity.
Qed.

Lemma displayMenu_follows_script_witness :
  Forall (fun c => (Z.of_N c < 2 ^ 31)%Z) [1; 7; 3; 4; 2]%N /\
  menu_script [1; 7; 3; 4; 2]%N = "1
7
3
4
2
" /\
  main_action ["sysmonitor"] (menu_script [1; 7; 3; 4; 2]%N)
  = Menu [ShowCpu; InvalidChoice; ShowProc] (Some (MenuMonitor 2)) /\
  main_action ["sysmonitor"] (menu_script [2; 0]%N)
  = Menu [ShowMem; InvalidChoice; InvalidInput] (Some MenuStuck).
Proof.
  assert (Hc : Forall (fun c => (Z.of_N c < 2 ^ 31)%Z) [1; 7; 3; 4; 2]%N)
    by (repeat constructor).
  split; [exact Hc|]. split; [reflexivity|].
  split; [exact (proj1 (displayMenu_follows_script "sysmonitor" [1; 7; 3; 4; 2]%N Hc))|].
  exact (proj1 (displayMenu_follows_script "sysmonitor" [2; 0]%N
                  ltac:(repeat constructor))).
Defined.

Open Scope Z_scope.

(** ** Failed reads *)


(** ** Truncated stat records *)

Open Scope string_scope.

Lemma skip_fields_short (fields : list string) :
  Forall (fun f => strchr f " " = None) fields ->
  forall n, (List.length fields <= n)%nat -> (0 < n)%nat ->
            skip_fields n (String.concat " " fields) = None.
Proof.
  induction 1 as [|f fs Hf Hfs IH]; intros n Hlen Hn.
  - destruct n; [lia | reflexivity].
  - destruct n as [|m]; [lia|]. cbn [skip_fields].
    destruct fs as [|g rest].
    + cbn [String.concat]. now rewrite Hf.
    + rewrite concat_cons, (strchr_append _ _ _ Hf).
      change (strchr (" " ++ String.concat " " (g :: rest)) " ")
        with (Some (" " ++ String.concat " " (g :: rest))).
      cbn [advance append]. apply IH; cbn [List.length] in *; lia.
Qed.

Lemma strchr_append_None (a b : string) (c : ascii) :
  strchr (a ++ b) c = None -> strchr a c = None.
Proof.
  induction a as [|x a IH]; [reflexivity|]. cbn [append strchr].
  destruct (Ascii.eqb x c); [discriminate | exact IH].
Qed.

Lemma length_append_le (a b : string) :
  (String.length a <= String.length (a ++ b))%nat.
Proof. rewrite length_append. lia. Qed.

(** A record that ends at the closing parenthesis of the name: [ptr += 2]
    steps over the terminator, and the result is that of the field loop
    and the [sscanf] on the bytes behind it. *)
Lemma parse_stat_cut_at_paren (pid comm behind : string) :
  strchr pid ")" = None -> strchr comm ")" = None ->
  parse_stat (pid ++ " (" ++ comm ++ ")") behind = parse_fields (c_str behind).
Proof.
  intros Hpid Hcomm. unfold parse_stat.
  rewrite (strchr_append _ _ _ Hpid).
  change (strchr (" (" ++ comm ++ ")") ")") with (strchr (comm ++ ")") ")").
  rewrite (strchr_append _ _ _ Hcomm). reflexivity.
Qed.

(** X19.  A stat record cut short.  When the blank after the name is
    there and at most eleven fields follow it, so that field 14 is missing,
    [readProcessStat] fails whatever its array held before, and the process
    is skipped.  When the record ends at the closing parenthesis of the
    name, [readProcessStat] does not fail for that reason: it returns what
    the field loop and [sscanf] find in the stale bytes behind the
    terminator. *)
Theorem readProcessStat_truncated (pid comm : string) (fields : list string) :
  strchr pid ")" = None -> strchr comm ")" = None ->
  Forall (fun f => strchr f " " = None) fields ->
  (List.length fields <= 11)%nat ->
  let line := stat_line pid comm fields in
  (String.length line <= 4095)%nat -> strchr line Ascii.zero = None ->
  forall stale,
    parse_stat line stale = None /\
    readProcessStat (Content line) stale = None /\
    readProcessStat (Content (pid ++ " (" ++ comm ++ ")")) stale
    = parse_fields (c_str stale).
Proof.
  intros Hpid Hcomm Hf Hlen line Hl Hz stale.
  assert (Hp : parse_stat line stale = None).
  { unfold line, parse_stat, parse_fields, stat_line.
    rewrite (strchr_append _ _ _ Hpid).
    change (strchr (" (" ++ comm ++ ") " ++ ?x) ")")
      with (strchr (comm ++ ") " ++ x) ")").
    rewrite (strchr_append _ _ _ Hcomm).
    cbn [append strchr Ascii.eqb Bool.eqb advance_over].
    rewrite (skip_fields_short fields Hf 11) by lia. reflexivity. }
  split; [exact Hp|]. split.
  { now rewrite (readProcessStat_line line stale (stat_line_nonempty _ _ _) Hl Hz). }
  assert (Hline : line = (pid ++ " (" ++ comm ++ ")") ++ " " ++ String.concat " " fields).
  { unfold line, stat_line.
    rewrite !append_assoc. reflexivity. }
  rewrite readProcessStat_line.
  - now apply parse_stat_cut_at_paren.
  - destruct pid; discriminate.
  - pose proof (length_append_le (pid ++ " (" ++ comm ++ ")")
                  (" " ++ String.concat " " fields)) as Hle.
    rewrite <- Hline in Hle. lia.
  - apply (strchr_append_None _ (" " ++ String.concat " " fields)).
    now rewrite <- Hline.
Qed.

Lemma readProcessStat_truncated_witness :
  let fields := ["S"; "1"; "1234"; "1234"; "0"; "-1"; "4194304"; "120"] in
  let line := stat_line "1234" "bash" fields in
  let stale := "S 1 1 1 0 -1 4194560 120 0 3 0 40 10 0 0 20" in
  (String.length line <= 4095)%nat /\ strchr line Ascii.zero = None /\
  readProcessStat (Content line) stale = None /\
  readProcessStat (Content "1234 (bash)") stale = Some (40, 10)%Z.
Proof.
  intros fields line stale.
  assert (Hl : (String.length line <= 4095)%nat) by (vm_compute; lia).
  assert (Hf : Forall (fun f => strchr f " " = None) fields)
    by (subst fields; repeat constructor).
  split; [exact Hl|]. split; [reflexivity|].
  pose proof (readProcessStat_truncated "1234" "bash" fields eq_refl eq_refl Hf
                ltac:(simpl; lia) Hl eq_refl stale) as (_ & Hcut & Hparen).
  split; [exact Hcut|].
  change (readProcessStat (Content ("1234" ++ " (" ++ "bash" ++ ")")) stale = Some (40, 10)%Z).
  rewrite Hparen. reflexivity.
Defined.

Open Scope Z_scope.
